(** * The 2048 board engine of [src/App.tsx]

    A shallow embedding of the board logic of the React component [App]:
    the row slide, the quarter turn, the tile spawn, the move callback, the
    terminal test and the two input handlers, followed by the properties
    the specification states about them.

    Conventions.
    - A [Board] is the source's [number[][]]: a list of rows of integers.
      Every tile value the game can reach is an integer far below 2^53, so
      the cells are modelled by [Z].
    - An array read that would leave the type [number[][]] (a missing row
      makes the source raise [TypeError], a missing cell yields
      [undefined]) is the failure [None] of the option monad.
    - A call of [Math.random()] is a rational draw [u] taken from the
      half-open unit interval; the draws are explicit arguments.
    - Touch coordinates are JavaScript numbers that need not be integers:
      they are IEEE 754 binary64 values, and the handler's subtractions and
      comparisons are the rounded operations of that format. *)

From Stdlib Require Import ZArith QArith Qround Lia String Floats.
From stdpp Require Import base tactics numbers option gmap list.

Local Open Scope Z_scope.

(** ** Data model *)

Abbreviation Board := (list (list Z)).

Definition GRID_SIZE : nat := 4.

Inductive direction : Type := up | down | left | right.

(** [for (let i = 0; i < n; i++) body] over a state threaded through the
    option monad. *)
Definition for_range {S : Type} (n : nat) (body : nat → S → option S)
    (s : S) : option S :=
  foldl (λ acc i, acc ≫= body i) (Some s) (seq 0 n).

(** [currentBoard[i][j]] as an rvalue. *)
Definition cell (b : Board) (i j : nat) : option Z :=
  b !! i ≫= λ row, row !! j.

(** [newBoard[i][j] = v].  A write past the end of a row would grow the
    JavaScript array with holes; no call site reaches that case and it is
    a failure here. *)
Definition setCell (b : Board) (i j : nat) (v : Z) : option Board :=
  row ← b !! i;
  if decide (j < length row)%nat
  then Some (<[i := <[j := v]> row]> b)
  else None.

(** [Array(GRID_SIZE).fill(null).map(() => Array(GRID_SIZE).fill(0))] *)
Definition createEmptyBoard : Board :=
  replicate GRID_SIZE (replicate GRID_SIZE 0).

(** ** slideRowLeft *)

(** The body of the [for] loop of [slideRowLeft], with the loop index [i],
    the output [newRow] and the accumulator [mergedScore] as arguments.
    The loop ends when [i] reaches the length of [filteredRow]; [fuel]
    bounds the number of iterations and running out of it is [None]. *)
Fixpoint slide_loop (fuel : nat) (filteredRow : list Z) (i : nat)
    (newRow : list Z) (mergedScore : Z) : option (list Z * Z) :=
  if decide (i < length filteredRow)%nat then
    match fuel with
    | O => None
    | S fuel' =>
        let cur := filteredRow !!! i in
        if decide ((i + 1 < length filteredRow)%nat
                   ∧ cur = filteredRow !!! (i + 1)%nat)
        then
          let mergedValue := cur * 2 in
          slide_loop fuel' filteredRow (i + 1 + 1)
                     (newRow ++ [mergedValue]) (mergedScore + mergedValue)
        else
          slide_loop fuel' filteredRow (i + 1) (newRow ++ [cur]) mergedScore
    end
  else Some (newRow, mergedScore).

(** [while (newRow.length < GRID_SIZE) newRow.push(0)] *)
Definition pad_row (newRow : list Z) : list Z :=
  newRow ++ replicate (GRID_SIZE - length newRow) 0.

Definition slideRowLeft (row : list Z) : option (list Z * Z) :=
  let filteredRow := filter (λ val, val ≠ 0) row in
  '(newRow, mergedScore) ← slide_loop (length filteredRow) filteredRow 0 [] 0;
  Some (pad_row newRow, mergedScore).

(** ** rotateBoard *)

Definition rotateBoard (currentBoard : Board) : option Board :=
  for_range GRID_SIZE (λ i newBoard,
    for_range GRID_SIZE (λ j newBoard,
      v ← cell currentBoard (GRID_SIZE - 1 - j) i;
      setCell newBoard i j v) newBoard) createEmptyBoard.

(** ** addRandomTile *)

(** The nested scan that collects the coordinates [{x: i, y: j}] of the
    cells holding 0, in row-major order. *)
Definition emptyCells (newBoard : Board) : option (list (nat * nat)) :=
  for_range GRID_SIZE (λ i acc,
    for_range GRID_SIZE (λ j acc,
      v ← cell newBoard i j;
      Some (if decide (v = 0) then acc ++ [(i, j)] else acc)) acc) [].

(** A draw of [Math.random()]: a rational of the interval [0, 1). *)
Definition unit_draw (u : Q) : Prop := (0 <= u)%Q ∧ (u < 1)%Q.

(** [Math.floor(u * n)] *)
Definition floor_scaled (u : Q) (n : nat) : Z :=
  Qfloor (u * inject_Z (Z.of_nat n)).

(** [xs[k]] for an integer index [k]; a negative index reads [undefined]. *)
Definition at_index {A : Type} (xs : list A) (k : Z) : option A :=
  if decide (0 ≤ k) then xs !! Z.to_nat k else None.

(** [Math.random() < 0.9 ? 2 : 4] *)
Definition tile_value (u : Q) : Z :=
  if Qlt_le_dec u (9 # 10) then 2 else 4.

(** [u1] is the draw that picks the cell, [u2] the draw that picks the
    value; neither is consumed when the board is full. *)
Definition addRandomTile (currentBoard : Board) (u1 u2 : Q) : option Board :=
  let newBoard := currentBoard in
  cells ← emptyCells newBoard;
  if decide (0 < length cells)%nat then
    '(x, y) ← at_index cells (floor_scaled u1 (length cells));
    setCell newBoard x y (tile_value u2)
  else Some newBoard.

(** ** isGameOver *)

(** One iteration of the inner loop body: [Some false] stands for the
    early [return false], and [rest] for carrying on with the scan. *)
Definition gameOver_step (currentBoard : Board) (i j : nat)
    (rest : option bool) : option bool :=
  v ← cell currentBoard i j;
  if decide (v = 0) then Some false else
  below ← (if decide (i < GRID_SIZE - 1)%nat
           then w ← cell currentBoard (i + 1) j; Some (bool_decide (v = w))
           else Some false);
  if below : bool then Some false else
  beside ← (if decide (j < GRID_SIZE - 1)%nat
            then w ← cell currentBoard i (j + 1); Some (bool_decide (v = w))
            else Some false);
  if beside : bool then Some false else rest.

(** The index pairs visited by the two nested loops, in order. *)
Definition scan_order : list (nat * nat) :=
  i ← seq 0 GRID_SIZE; j ← seq 0 GRID_SIZE; [(i, j)].

Definition isGameOver (currentBoard : Board) : option bool :=
  foldr (λ '(i, j) rest, gameOver_step currentBoard i j rest)
        (Some true) scan_order.

(** ** Session state and move *)

(** The component state the board engine reads and writes.  The best
    score and the pending touch position are presentation state. *)
Record State : Type := mkState {
  board : Board;
  score : Z;
  gameOver : bool
}.

Definition rotations (d : direction) : nat :=
  match d with
  | up => 1
  | right => 2
  | down => 3
  | left => 0
  end.

(** The first half of [move]: the copy of the board is turned, each of
    its four rows is slid left in place, and the copy is turned back by
    three quarter turns per initial turn. *)
Definition move_slide (b : Board) (d : direction) : option (Board * Z) :=
  let tempBoard := b in
  tempBoard ← for_range (S := Board) (rotations d)
    (λ _ t, rotateBoard t) tempBoard;
  '(tempBoard, totalMergedScore) ←
    for_range (S := Board * Z) GRID_SIZE (λ i '(t, total),
      row ← t !! i;
      '(newRow, mergedScore) ← slideRowLeft row;
      Some (<[i := newRow]> t, total + mergedScore)) (tempBoard, 0);
  tempBoard ← for_range (S := Board) (rotations d)
    (λ _ t, t1 ← rotateBoard t; t2 ← rotateBoard t1; rotateBoard t2)
    tempBoard;
  Some (tempBoard, totalMergedScore).

(** [JSON.stringify(board) !== JSON.stringify(tempBoard)]: on arrays of
    arrays of integers the two strings differ exactly when the arrays
    do. *)
Definition boardChanged (b tempBoard : Board) : bool :=
  bool_decide (b ≠ tempBoard).

Definition move (s : State) (d : direction) (u1 u2 : Q) : option State :=
  if gameOver s then Some s else
  '(tempBoard, totalMergedScore) ← move_slide (board s) d;
  if boardChanged (board s) tempBoard then
    newBoardWithTile ← addRandomTile tempBoard u1 u2;
    over ← isGameOver newBoardWithTile;
    Some {| board := newBoardWithTile;
            score := score s + totalMergedScore;
            gameOver := if over : bool then true else gameOver s |}
  else Some s.

(** [initGame]: two spawns on an empty board, four draws. *)
Definition initGame (u1 u2 u3 u4 : Q) : option State :=
  newBoard ← addRandomTile createEmptyBoard u1 u2;
  newBoard ← addRandomTile newBoard u3 u4;
  Some {| board := newBoard; score := 0; gameOver := false |}.

(** ** Input handlers *)

(** [a > b] on JavaScript numbers. *)
Definition gt (a b : float) : bool := (b <? a)%float.

(** [Math.max(a, b)]: NaN when either argument is NaN, otherwise the
    larger one, with +0 above -0. *)
Definition Math_max (a b : float) : float :=
  if is_nan a || is_nan b then nan
  else if (a <? b)%float then b
  else if (b <? a)%float then a
  else if is_zero a && get_sign a then b
  else a.

(** Both handlers are closures over the [move] callback; [T] is whatever
    state that callback transforms, and a handler that makes no call
    leaves it alone. *)
Section Handlers.
Context {T : Type} (move_cb : direction → T → option T).

Definition handleKeyDown (key : string) (st : T) : option T :=
  if String.eqb key "ArrowUp" then move_cb down st
  else if String.eqb key "ArrowDown" then move_cb up st
  else if String.eqb key "ArrowLeft" then move_cb left st
  else if String.eqb key "ArrowRight" then move_cb right st
  else Some st.

(** [touchStart] is the recorded start of the gesture, if any, and
    [changedTouches] the [(clientX, clientY)] pairs of the event.  The
    second component is the value given to [setTouchStart]. *)
Definition handleTouchEnd (touchStart : option (float * float))
    (changedTouches : list (float * float)) (st : T)
    : option T * option (float * float) :=
  (match touchStart, changedTouches with
   | Some (sx, sy), [(ex, ey)] =>
       let dx := (ex - sx)%float in
       let dy := (ey - sy)%float in
       let absDx := abs dx in
       let absDy := abs dy in
       if gt (Math_max absDx absDy) 30%float then
         if gt absDx absDy then
           move_cb (if gt dx 0%float then right else left) st
         else
           move_cb (if gt dy 0%float then down else up) st
       else Some st
   | _, _ => Some st
   end, None).
End Handlers.

(** The handlers as wired in the component, with the draws a call of
    [move] may consume. *)
Definition keyDown (s : State) (key : string) (u1 u2 : Q) : option State :=
  handleKeyDown (λ d s, move s d u1 u2) key s.

(** ** The operations in the words of the specification *)

(** Remove zeros, preserving relative order. *)
Definition compact (line : list Z) : list Z :=
  filter (λ v, v ≠ 0) line.

(** Scan left to right; two consecutive equal values become one tile of
    double value and the scan resumes after the pair. *)
Fixpoint mergePairs (l : list Z) : list Z :=
  match l with
  | x :: ((y :: rest) as tl) =>
      if decide (x = y) then 2 * x :: mergePairs rest
      else x :: mergePairs tl
  | _ => l
  end.

(** The sum of the merged values of that scan. *)
Fixpoint scoreDelta (l : list Z) : Z :=
  match l with
  | x :: ((y :: rest) as tl) =>
      if decide (x = y) then 2 * x + scoreDelta rest
      else scoreDelta tl
  | _ => 0
  end.

(** The number of pairs that scan merges. *)
Fixpoint mergedPairs (l : list Z) : nat :=
  match l with
  | x :: ((y :: rest) as tl) =>
      if decide (x = y) then S (mergedPairs rest)
      else mergedPairs tl
  | _ => O
  end.

(** Pad on the right with zeros to length N. *)
Definition padTo (n : nat) (l : list Z) : list Z :=
  l ++ replicate (n - length l) 0.

Definition slideAndMergeLine (line : list Z) : list Z * Z :=
  (padTo GRID_SIZE (mergePairs (compact line)), scoreDelta (compact line)).

(** k = 0 for left, 1 for up, 2 for right, 3 for down. *)
Definition normal_turns (d : direction) : nat :=
  match d with
  | left => 0
  | up => 1
  | right => 2
  | down => 3
  end.

(** Column [j] of a grid, read from the first row to the last. *)
Definition column (j : nat) (g : Board) : list Z :=
  (λ row, row !!! j) <$> g.

(** rotate90: one quarter turn clockwise.  Row [j] of the result is
    column [j] of the argument read from the last row to the first. *)
Definition rotate90 (g : Board) : Board :=
  (λ j, reverse (column j g)) <$> seq 0 GRID_SIZE.

(** The rotation-normalised move: k quarter turns, the line operation on
    every row with the score deltas summed, then (4 − k) mod 4 quarter
    turns. *)
Definition normalised_move (b : Board) (d : direction) : Board * Z :=
  let k := normal_turns d in
  let lines := slideAndMergeLine <$> Nat.iter k rotate90 b in
  (Nat.iter ((4 - k) mod 4) rotate90 (lines.*1), foldr Z.add 0 (lines.*2)).

(** A session is a sequence of moves, each with the two draws it may
    consume. *)
Fixpoint play (s : State) (moves : list (direction * Q * Q))
    : option State :=
  match moves with
  | [] => Some s
  | (d, u1, u2) :: rest => s' ← move s d u1 u2; play s' rest
  end.

(** The score delta a move returns when it changes the state, and zero
    for a move that changes nothing. *)
Definition move_delta (s : State) (d : direction) : Z :=
  if gameOver s then 0 else
  match move_slide (board s) d with
  | Some (t, delta) => if boardChanged (board s) t then delta else 0
  | None => 0
  end.

(** The sum of those deltas along a session. *)
Fixpoint session_delta (s : State) (moves : list (direction * Q * Q)) : Z :=
  match moves with
  | [] => 0
  | (d, u1, u2) :: rest =>
      move_delta s d
      + match move s d u1 u2 with
        | Some s' => session_delta s' rest
        | None => 0
        end
  end.

(** The draws that pick the cell of a spawn are unit draws. *)
Definition fair (moves : list (direction * Q * Q)) : Prop :=
  Forall (λ '(_, u1, _), unit_draw u1) moves.

(** ** Predicates on boards *)

(** Four rows of four cells. *)
Definition is_grid (b : Board) : Prop :=
  length <$> b = [4; 4; 4; 4]%nat.

(** The number of non-zero cells of a row and of a board. *)
Definition nonzeros (row : list Z) : nat :=
  length (filter (λ v, v ≠ 0) row).

Definition nonzero_cells (b : Board) : nat :=
  sum_list (nonzeros <$> b).

(** 0 or a power of two that is at least 2, as a test. *)
Definition tile_ok (v : Z) : bool :=
  bool_decide (v = 0)
  || (bool_decide (2 ≤ v) && bool_decide (v = 2 ^ Z.log2 v)).

Definition well_formed (b : Board) : Prop :=
  is_grid b ∧ forallb (forallb tile_ok) b = true.

(** The quarter turn as a total function: outside the 4×4 boards, where
    [rotateBoard] fails, it leaves its argument alone. *)
Definition turn (b : Board) : Board := default b (rotateBoard b).

(** Every row slid left, and the sum of the score deltas of the rows. *)
Definition slid (b : Board) : Board :=
  (λ row, (slideAndMergeLine row).1) <$> b.

Definition gain (b : Board) : Z :=
  foldl (λ total row, total + (slideAndMergeLine row).2) 0 b.

(** The number of pairs merged over all rows. *)
Definition merged_in (b : Board) : nat :=
  sum_list ((λ row, mergedPairs (compact row)) <$> b).

(** The number of pairs a move in direction [d] merges. *)
Definition moves_merged (b : Board) (d : direction) : nat :=
  merged_in (Nat.iter (rotations d) turn b).

(** Every cell is non-zero and no two horizontally or vertically adjacent
    cells hold equal values. *)
Definition terminal (b : Board) : Prop :=
  ∀ i j v, cell b i j = Some v →
    v ≠ 0
    ∧ (∀ w, cell b (i + 1) j = Some w → v ≠ w)
    ∧ (∀ w, cell b i (j + 1) = Some w → v ≠ w).

(** ** Facts about the row slide *)

Section MergeInduction.
Variable P : list Z → Prop.
Hypothesis P_nil : P [].
Hypothesis P_one : ∀ x, P [x].
Hypothesis P_merge : ∀ x rest, P rest → P (x :: x :: rest).
Hypothesis P_keep : ∀ x y tl, x ≠ y → P (y :: tl) → P (x :: y :: tl).

(** Induction along the cases of the merge scan. *)
Lemma merge_ind (l : list Z) : P l.
Proof using All.
  remember (length l) as n eqn:Hn.
  revert l Hn.
  induction n as [n IH] using lt_wf_ind.
  intros [|x [|y tl]] Hn; [done..|].
  destruct (decide (x = y)) as [->|Hne].
  - apply P_merge. apply (IH (length tl)); [simpl in Hn; lia | done].
  - apply P_keep; [done|].
    apply (IH (length (y :: tl))); [simpl in *; lia | done].
Qed.
End MergeInduction.

Lemma mergePairs_merge x rest :
  mergePairs (x :: x :: rest) = 2 * x :: mergePairs rest.
Proof. simpl. by rewrite decide_True. Qed.

Lemma mergePairs_keep x y tl :
  x ≠ y → mergePairs (x :: y :: tl) = x :: mergePairs (y :: tl).
Proof. intros. cbn [mergePairs]. by rewrite decide_False. Qed.

Lemma scoreDelta_merge x rest :
  scoreDelta (x :: x :: rest) = 2 * x + scoreDelta rest.
Proof. simpl. by rewrite decide_True. Qed.

Lemma scoreDelta_keep x y tl :
  x ≠ y → scoreDelta (x :: y :: tl) = scoreDelta (y :: tl).
Proof. intros. cbn [scoreDelta]. by rewrite decide_False. Qed.

Lemma mergedPairs_merge x rest :
  mergedPairs (x :: x :: rest) = S (mergedPairs rest).
Proof. simpl. by rewrite decide_True. Qed.

Lemma mergedPairs_keep x y tl :
  x ≠ y → mergedPairs (x :: y :: tl) = mergedPairs (y :: tl).
Proof. intros. cbn [mergedPairs]. by rewrite decide_False. Qed.

(** The loop of [slideRowLeft], started at index [i] with enough fuel,
    leaves through its guard with the merge scan of the rest of the row
    appended to its output. *)
Lemma slide_loop_spec fuel f i acc sc :
  (length f - i ≤ fuel)%nat →
  slide_loop fuel f i acc sc
  = Some (acc ++ mergePairs (drop i f), sc + scoreDelta (drop i f)).
Proof.
  revert i acc sc.
  induction fuel as [|fuel IH]; intros i acc sc Hfuel.
  - simpl. rewrite decide_False by lia.
    rewrite drop_ge by lia. simpl. by rewrite app_nil_r, Z.add_0_r.
  - simpl. destruct (decide (i < length f)%nat) as [Hi|Hi]; last first.
    { rewrite drop_ge by lia. simpl. by rewrite app_nil_r, Z.add_0_r. }
    destruct (lookup_lt_is_Some_2 f i Hi) as [x Hx].
    rewrite (list_lookup_total_correct _ _ _ Hx).
    rewrite (drop_S _ _ _ Hx).
    destruct (decide (i + 1 < length f)%nat) as [Hi1|Hi1].
    + destruct (lookup_lt_is_Some_2 f (i + 1) Hi1) as [y Hy].
      rewrite (list_lookup_total_correct _ _ _ Hy).
      replace (S i) with (i + 1)%nat by lia.
      rewrite (drop_S _ _ _ Hy).
      destruct (decide (x = y)) as [->|Hne].
      * rewrite decide_True by done.
        rewrite IH by lia.
        rewrite mergePairs_merge, scoreDelta_merge.
        replace (S (i + 1)) with (i + 1 + 1)%nat by lia.
        rewrite <- app_assoc. simpl.
        rewrite (Z.mul_comm y 2). do 2 f_equal. lia.
      * rewrite decide_False by (intros [_ ?]; done).
        rewrite IH by lia.
        rewrite mergePairs_keep, scoreDelta_keep by done.
        rewrite (drop_S _ _ _ Hy).
        by rewrite <- app_assoc.
    + rewrite decide_False by (intros [? _]; done).
      rewrite IH by lia.
      rewrite (drop_ge f (S i)) by lia.
      rewrite (drop_ge f (i + 1)) by lia.
      by rewrite <- app_assoc.
Qed.

(** [slideRowLeft] never fails, and computes the line operation of the
    specification. *)
Lemma slideRowLeft_spec row :
  slideRowLeft row = Some (slideAndMergeLine row).
Proof.
  unfold slideRowLeft, slideAndMergeLine, compact.
  rewrite slide_loop_spec by lia.
  by rewrite drop_0.
Qed.

Lemma mergePairs_length l :
  (length (mergePairs l) + mergedPairs l = length l)%nat.
Proof.
  induction l as [| x | x rest IH | x y tl Hne IH] using merge_ind;
    [done..| |].
  - rewrite mergePairs_merge, mergedPairs_merge. simpl. lia.
  - rewrite mergePairs_keep, mergedPairs_keep by done. simpl in *. lia.
Qed.

Lemma mergePairs_fixed l : mergedPairs l = O → mergePairs l = l.
Proof.
  induction l as [| x | x rest IH | x y tl Hne IH] using merge_ind;
    [done..| |].
  - by rewrite mergedPairs_merge.
  - rewrite mergePairs_keep, mergedPairs_keep by done.
    intros H. by rewrite IH.
Qed.

Lemma mergePairs_Forall (Q : Z → Prop) l :
  (∀ x, Q x → Q (2 * x)) → Forall Q l → Forall Q (mergePairs l).
Proof.
  intros Hdouble.
  induction l as [| x | x rest IH | x y tl Hne IH] using merge_ind;
    [done..| |].
  - rewrite mergePairs_merge. intros H.
    apply Forall_cons_1 in H as [Hx H]. apply Forall_cons_1 in H as [_ H].
    apply Forall_cons_2; auto.
  - rewrite mergePairs_keep by done. intros H.
    apply Forall_cons_1 in H as [Hx H].
    apply Forall_cons_2; auto.
Qed.

Lemma scoreDelta_nonneg l : Forall (λ v, 0 ≤ v) l → 0 ≤ scoreDelta l.
Proof.
  induction l as [| x | x rest IH | x y tl Hne IH] using merge_ind;
    [done..| |].
  - rewrite scoreDelta_merge. intros H.
    apply Forall_cons_1 in H as [Hx H]. apply Forall_cons_1 in H as [_ H].
    specialize (IH H). lia.
  - rewrite scoreDelta_keep by done. intros H.
    apply Forall_cons_1 in H as [_ H]. auto.
Qed.

Lemma filter_all_length {A} (P : A → Prop) `{∀ x, Decision (P x)} l :
  length (filter P l) = length l → filter P l = l.
Proof.
  induction l as [|x l IH]; [done|].
  rewrite filter_cons. pose proof (length_filter P l) as Hle.
  case_decide; simpl; intros Hlen; [f_equal; apply IH; lia | lia].
Qed.

Lemma compact_nonzero row : Forall (λ v, v ≠ 0) (compact row).
Proof.
  apply Forall_forall. intros v Hv.
  by apply list_elem_of_filter in Hv as [? _].
Qed.

Lemma compact_Forall (Q : Z → Prop) row :
  Forall Q row → Forall Q (compact row).
Proof.
  rewrite !Forall_forall. intros Hrow v Hv.
  apply list_elem_of_filter in Hv as [_ Hv]. auto.
Qed.

Lemma nonzeros_all row : Forall (λ v, v ≠ 0) row → nonzeros row = length row.
Proof.
  unfold nonzeros. induction 1 as [|v row Hv _ IH]; [done|].
  rewrite filter_cons, decide_True by done. simpl. by rewrite IH.
Qed.

Lemma nonzeros_app r1 r2 : nonzeros (r1 ++ r2) = (nonzeros r1 + nonzeros r2)%nat.
Proof. unfold nonzeros. by rewrite filter_app, length_app. Qed.

Lemma nonzeros_zeros n : nonzeros (replicate n 0) = 0%nat.
Proof.
  unfold nonzeros. induction n as [|n IH]; [done|].
  simpl. by rewrite filter_cons, decide_False by (intros H; by apply H).
Qed.

Lemma merged_nonzero row : Forall (λ v, v ≠ 0) (mergePairs (compact row)).
Proof. apply mergePairs_Forall; [lia | apply compact_nonzero]. Qed.

(** A slid row has four cells again. *)
Lemma slide_line_length row :
  (length row ≤ 4)%nat → length (slideAndMergeLine row).1 = 4%nat.
Proof.
  intros Hlen. unfold slideAndMergeLine, padTo, GRID_SIZE. simpl.
  pose proof (mergePairs_length (compact row)) as Hm.
  pose proof (length_filter (λ v, v ≠ 0) row) as Hc. fold (compact row) in Hc.
  rewrite length_app, length_replicate. lia.
Qed.

(** Each merged pair costs the row one non-zero cell. *)
Lemma slide_line_nonzeros row :
  (nonzeros (slideAndMergeLine row).1 + mergedPairs (compact row)
   = nonzeros row)%nat.
Proof.
  unfold slideAndMergeLine, padTo. simpl.
  rewrite nonzeros_app, nonzeros_zeros, Nat.add_0_r.
  rewrite (nonzeros_all _ (merged_nonzero row)).
  apply mergePairs_length.
Qed.

(** A row that the slide changes ends with a free cell. *)
Lemma slide_line_changed row :
  length row = 4%nat → (slideAndMergeLine row).1 ≠ row →
  (nonzeros (slideAndMergeLine row).1 < 4)%nat.
Proof.
  intros Hlen Hne.
  pose proof (slide_line_nonzeros row) as Hnz.
  pose proof (length_filter (λ v, v ≠ 0) row) as Hc.
  fold (nonzeros row) in Hc.
  destruct (decide (nonzeros (slideAndMergeLine row).1 < 4)%nat) as [|Hge];
    [done|].
  exfalso. apply Hne.
  assert (Hfull : compact row = row).
  { apply filter_all_length. unfold nonzeros in *. lia. }
  unfold slideAndMergeLine, padTo, GRID_SIZE. simpl.
  rewrite mergePairs_fixed by lia.
  rewrite Hfull, Hlen. simpl. by rewrite app_nil_r.
Qed.

Lemma forallb_Forall_true {A} (f : A → bool) l :
  forallb f l = true ↔ Forall (λ x, f x = true) l.
Proof.
  induction l as [|x l IH]; simpl; [by split; auto|].
  rewrite andb_true_iff, IH. split.
  - intros [??]. by apply Forall_cons_2.
  - intros H. by apply Forall_cons_1 in H.
Qed.

Lemma tile_ok_spec v :
  tile_ok v = true ↔ v = 0 ∨ ∃ k : Z, 1 ≤ k ∧ v = 2 ^ k.
Proof.
  unfold tile_ok.
  rewrite orb_true_iff, andb_true_iff, !bool_decide_eq_true.
  split.
  - intros [?|[Hv Hlog]]; [by left|right].
    exists (Z.log2 v). split; [|done].
    change 1 with (Z.log2 2). by apply Z.log2_le_mono.
  - intros [?|(k & Hk & ->)]; [by left|right].
    rewrite Z.log2_pow2 by lia. split; [|done].
    change 2 with (2 ^ 1) at 1. apply Z.pow_le_mono_r; lia.
Qed.

Lemma tile_ok_nonneg v : tile_ok v = true → 0 ≤ v.
Proof.
  rewrite tile_ok_spec. intros [->|(k & Hk & ->)]; [done|].
  apply Z.pow_nonneg. lia.
Qed.

Lemma tile_ok_double v : tile_ok v = true → tile_ok (2 * v) = true.
Proof.
  rewrite !tile_ok_spec. intros [->|(k & Hk & ->)]; [by left|right].
  exists (k + 1). split; [lia|].
  rewrite Z.pow_add_r by lia. lia.
Qed.

Lemma slide_line_tiles row :
  forallb tile_ok row = true →
  forallb tile_ok (slideAndMergeLine row).1 = true.
Proof.
  rewrite !forallb_Forall_true. intros Hrow.
  unfold slideAndMergeLine, padTo. simpl.
  apply Forall_app. split.
  - apply mergePairs_Forall; [apply tile_ok_double|].
    by apply compact_Forall.
  - by apply Forall_replicate.
Qed.

Lemma slide_line_gain row :
  forallb tile_ok row = true → 0 ≤ (slideAndMergeLine row).2.
Proof.
  rewrite forallb_Forall_true. intros Hrow. simpl.
  apply scoreDelta_nonneg. apply compact_Forall.
  eapply Forall_impl; [exact Hrow|]. apply tile_ok_nonneg.
Qed.

#[global] Arguments turn : simpl never.
#[global] Arguments nonzeros : simpl never.
#[global] Arguments slideAndMergeLine : simpl never.

(** ** Facts about 4×4 boards *)

(** Name the sixteen cells of a board known to be a grid. *)
Ltac grid_cells b H :=
  unfold is_grid in H;
  destruct b as [|[|? [|? [|? [|? [|? ?]]]]]
                 [|[|? [|? [|? [|? [|? ?]]]]]
                 [|[|? [|? [|? [|? [|? ?]]]]]
                 [|[|? [|? [|? [|? [|? ?]]]]]
                 [|? ?]]]]]; try discriminate H; clear H.

Lemma is_grid_rows b :
  is_grid b → ∃ r0 r1 r2 r3,
    b = [r0; r1; r2; r3]
    ∧ length r0 = 4%nat ∧ length r1 = 4%nat
    ∧ length r2 = 4%nat ∧ length r3 = 4%nat.
Proof.
  unfold is_grid.
  destruct b as [|r0 [|r1 [|r2 [|r3 [|? ?]]]]]; try discriminate.
  intros [= ? ? ? ?]. by exists r0, r1, r2, r3.
Qed.

Lemma rotateBoard_grid b : is_grid b → rotateBoard b = Some (turn b).
Proof. intros H. grid_cells b H. reflexivity. Qed.

Lemma turn_grid b : is_grid b → is_grid (turn b).
Proof. intros H. grid_cells b H. reflexivity. Qed.

Lemma turn_four b : is_grid b → turn (turn (turn (turn b))) = b.
Proof. intros H. grid_cells b H. reflexivity. Qed.

Lemma iter_turn_grid n b : is_grid b → is_grid (Nat.iter n turn b).
Proof. intros H. induction n; simpl; auto using turn_grid. Qed.

Definition nz (v : Z) : nat := if decide (v ≠ 0) then 1%nat else 0%nat.

Lemma nonzeros_cons v row : nonzeros (v :: row) = (nz v + nonzeros row)%nat.
Proof. unfold nonzeros, nz. rewrite filter_cons. by case_decide. Qed.

Lemma nonzeros_nil : nonzeros [] = 0%nat.
Proof. done. Qed.

(** Replace the turn of a board of named cells by its value. *)
Ltac eval_turn :=
  repeat match goal with
  | |- context [turn ?x] =>
      let y := eval vm_compute in (turn x) in change (turn x) with y
  end.

Ltac count_cells :=
  unfold nonzero_cells; simpl;
  rewrite ?nonzeros_cons, ?nonzeros_nil.

Lemma turn_nonzero_cells b :
  is_grid b → nonzero_cells (turn b) = nonzero_cells b.
Proof.
  intros H. grid_cells b H.
  eval_turn.
  count_cells. lia.
Qed.

Lemma turn_tiles b :
  is_grid b → forallb (forallb tile_ok) b = true →
  forallb (forallb tile_ok) (turn b) = true.
Proof.
  intros H. grid_cells b H.
  eval_turn.
  cbn [forallb]. rewrite !andb_true_iff. tauto.
Qed.

(** ** The slide phase of a move on a grid *)

Lemma slid_grid b : is_grid b → is_grid (slid b).
Proof.
  intros (r0 & r1 & r2 & r3 & -> & H0 & H1 & H2 & H3)%is_grid_rows.
  unfold is_grid, slid. cbn -[slideAndMergeLine].
  by rewrite !slide_line_length by lia.
Qed.

(** The loop over the four rows. *)
Lemma slide_rows_grid b :
  is_grid b →
  for_range (S := Board * Z) GRID_SIZE (λ i '(t, total),
      row ← t !! i;
      '(newRow, mergedScore) ← slideRowLeft row;
      Some (<[i := newRow]> t, total + mergedScore)) (b, 0)
  = Some (slid b, gain b).
Proof.
  intros (r0 & r1 & r2 & r3 & -> & _)%is_grid_rows.
  unfold for_range, slid, gain. cbn -[slideRowLeft slideAndMergeLine].
  do 4 (rewrite slideRowLeft_spec;
        destruct (slideAndMergeLine _) as [? ?];
        cbn -[slideRowLeft slideAndMergeLine]).
  done.
Qed.

Lemma turns_grid n b :
  is_grid b →
  for_range (S := Board) n (λ _ t, rotateBoard t) b
  = Some (Nat.iter n turn b).
Proof.
  intros Hb. unfold for_range.
  generalize 0%nat as start.
  induction n as [|n IH]; intros start; [done|].
  rewrite seq_S, foldl_app, IH. simpl.
  by rewrite rotateBoard_grid by by apply iter_turn_grid.
Qed.

Lemma turns_back_grid n b :
  is_grid b →
  for_range (S := Board) n
    (λ _ t, t1 ← rotateBoard t; t2 ← rotateBoard t1; rotateBoard t2) b
  = Some (Nat.iter n (λ t, turn (turn (turn t))) b).
Proof.
  intros Hb. unfold for_range.
  generalize 0%nat as start.
  assert (Hinv : ∀ k, is_grid (Nat.iter k (λ t, turn (turn (turn t))) b)).
  { induction k; simpl; auto using turn_grid. }
  induction n as [|n IH]; intros start; [done|].
  rewrite seq_S, foldl_app, IH. simpl.
  set (t := Nat.iter n _ b). specialize (Hinv n). fold t in Hinv.
  rewrite (rotateBoard_grid t) by done. simpl.
  rewrite (rotateBoard_grid (turn t)) by auto using turn_grid. simpl.
  by rewrite (rotateBoard_grid (turn (turn t))) by auto using turn_grid.
Qed.

(** The board and the score delta a move computes before the spawn. *)
Definition slide_board (b : Board) (d : direction) : Board :=
  Nat.iter (rotations d) (λ t, turn (turn (turn t)))
    (slid (Nat.iter (rotations d) turn b)).

Definition slide_gain (b : Board) (d : direction) : Z :=
  gain (Nat.iter (rotations d) turn b).

Lemma move_slide_grid b d :
  is_grid b → move_slide b d = Some (slide_board b d, slide_gain b d).
Proof.
  intros Hb. unfold move_slide.
  rewrite turns_grid by done. simpl.
  rewrite slide_rows_grid by by apply iter_turn_grid. simpl.
  rewrite turns_back_grid by by apply slid_grid, iter_turn_grid.
  done.
Qed.

Lemma slide_board_grid b d : is_grid b → is_grid (slide_board b d).
Proof.
  intros Hb. unfold slide_board.
  assert (Hs : is_grid (slid (Nat.iter (rotations d) turn b)))
    by by apply slid_grid, iter_turn_grid.
  revert Hs. generalize (slid (Nat.iter (rotations d) turn b)) as t.
  intros t Ht. induction (rotations d); simpl; auto using turn_grid.
Qed.

Lemma nonzeros_le row : (nonzeros row ≤ length row)%nat.
Proof. apply length_filter. Qed.

Lemma slid_nonzero_cells b :
  (nonzero_cells (slid b) + merged_in b = nonzero_cells b)%nat.
Proof.
  unfold nonzero_cells, merged_in, slid.
  induction b as [|row b IH]; [done|].
  rewrite !fmap_cons. cbn [sum_list_with id].
  pose proof (slide_line_nonzeros row). lia.
Qed.

Lemma slid_changed b :
  is_grid b → slid b ≠ b → (nonzero_cells (slid b) < 16)%nat.
Proof.
  intros (r0 & r1 & r2 & r3 & -> & H0 & H1 & H2 & H3)%is_grid_rows Hne.
  change (slid [r0; r1; r2; r3])
    with [(slideAndMergeLine r0).1; (slideAndMergeLine r1).1;
          (slideAndMergeLine r2).1; (slideAndMergeLine r3).1] in *.
  pose proof (slide_line_changed r0 H0) as C0.
  pose proof (slide_line_changed r1 H1) as C1.
  pose proof (slide_line_changed r2 H2) as C2.
  pose proof (slide_line_changed r3 H3) as C3.
  pose proof (nonzeros_le (slideAndMergeLine r0).1) as L0.
  pose proof (nonzeros_le (slideAndMergeLine r1).1) as L1.
  pose proof (nonzeros_le (slideAndMergeLine r2).1) as L2.
  pose proof (nonzeros_le (slideAndMergeLine r3).1) as L3.
  rewrite slide_line_length in L0, L1, L2, L3 by lia.
  revert Hne C0 C1 C2 C3 L0 L1 L2 L3.
  generalize (slideAndMergeLine r0).1 (slideAndMergeLine r1).1
             (slideAndMergeLine r2).1 (slideAndMergeLine r3).1.
  intros s0 s1 s2 s3 Hne C0 C1 C2 C3 L0 L1 L2 L3.
  change (nonzeros s0 + (nonzeros s1 + (nonzeros s2 + (nonzeros s3 + 0)))
          < 16)%nat.
  destruct (decide (s0 = r0)) as [->|N0]; [|specialize (C0 N0); lia].
  destruct (decide (s1 = r1)) as [->|N1]; [|specialize (C1 N1); lia].
  destruct (decide (s2 = r2)) as [->|N2]; [|specialize (C2 N2); lia].
  destruct (decide (s3 = r3)) as [->|N3]; [|specialize (C3 N3); lia].
  by destruct Hne.
Qed.

Lemma slid_tiles b :
  forallb (forallb tile_ok) b = true →
  forallb (forallb tile_ok) (slid b) = true.
Proof.
  unfold slid. induction b as [|row b IH]; [done|].
  simpl. rewrite !andb_true_iff.
  intros [Hrow Hb]. split; [by apply slide_line_tiles | auto].
Qed.

Lemma gain_from_nonneg b total :
  0 ≤ total → forallb (forallb tile_ok) b = true →
  0 ≤ foldl (λ total row, total + (slideAndMergeLine row).2) total b.
Proof.
  revert total. induction b as [|row b IH]; intros total Htotal; [done|].
  simpl. rewrite andb_true_iff. intros [Hrow Hb].
  apply IH; [|done]. pose proof (slide_line_gain row Hrow) as Hg.
  unfold slideAndMergeLine in *. simpl in *. lia.
Qed.

Lemma gain_nonneg b : forallb (forallb tile_ok) b = true → 0 ≤ gain b.
Proof. by apply gain_from_nonneg. Qed.

Lemma iter_turn_nonzero_cells n b :
  is_grid b → nonzero_cells (Nat.iter n turn b) = nonzero_cells b.
Proof.
  intros Hb. induction n as [|n IH]; [done|].
  simpl. by rewrite turn_nonzero_cells by by apply iter_turn_grid.
Qed.

Lemma iter_turn_tiles n b :
  is_grid b → forallb (forallb tile_ok) b = true →
  forallb (forallb tile_ok) (Nat.iter n turn b) = true.
Proof.
  intros Hb Ht. induction n as [|n IH]; [done|].
  simpl. apply turn_tiles; [by apply iter_turn_grid | done].
Qed.

Lemma turn3_iter n b :
  Nat.iter n (λ t, turn (turn (turn t))) b = Nat.iter (3 * n) turn b.
Proof.
  induction n as [|n IH]; [done|].
  replace (3 * S n)%nat with (S (S (S (3 * n)))) by lia.
  simpl. by rewrite IH.
Qed.

(** Undoing the turns of a direction: [k] turns followed by [3 * k]. *)
Lemma turns_cancel d b :
  is_grid b →
  Nat.iter (3 * rotations d) turn (Nat.iter (rotations d) turn b) = b.
Proof. intros H. grid_cells b H. by destruct d. Qed.

Lemma slide_board_unchanged b d :
  is_grid b →
  slid (Nat.iter (rotations d) turn b) = Nat.iter (rotations d) turn b →
  slide_board b d = b.
Proof.
  intros Hb Hfix. unfold slide_board.
  rewrite Hfix, turn3_iter. by apply turns_cancel.
Qed.

Lemma slide_board_nonzeros b d :
  is_grid b →
  (nonzero_cells (slide_board b d) + moves_merged b d = nonzero_cells b)%nat.
Proof.
  intros Hb. unfold slide_board, moves_merged.
  rewrite turn3_iter.
  rewrite iter_turn_nonzero_cells by by apply slid_grid, iter_turn_grid.
  rewrite slid_nonzero_cells.
  by apply iter_turn_nonzero_cells.
Qed.

Lemma slide_board_changed b d :
  is_grid b → slide_board b d ≠ b →
  (nonzero_cells (slide_board b d) < 16)%nat.
Proof.
  intros Hb Hne.
  assert (Hs : slid (Nat.iter (rotations d) turn b)
               ≠ Nat.iter (rotations d) turn b).
  { intros Hfix. by apply Hne, slide_board_unchanged. }
  unfold slide_board. rewrite turn3_iter.
  rewrite iter_turn_nonzero_cells by by apply slid_grid, iter_turn_grid.
  apply slid_changed; [by apply iter_turn_grid | done].
Qed.

Lemma slide_board_tiles b d :
  is_grid b → forallb (forallb tile_ok) b = true →
  forallb (forallb tile_ok) (slide_board b d) = true.
Proof.
  intros Hb Ht. unfold slide_board. rewrite turn3_iter.
  apply iter_turn_tiles; [by apply slid_grid, iter_turn_grid|].
  by apply slid_tiles, iter_turn_tiles.
Qed.

Lemma slide_gain_nonneg b d :
  is_grid b → forallb (forallb tile_ok) b = true → 0 ≤ slide_gain b d.
Proof. intros Hb Ht. by apply gain_nonneg, iter_turn_tiles. Qed.

(** ** Facts about the terminal test *)

Lemma cell_grid b i j :
  is_grid b → (i < 4 ∧ j < 4)%nat ↔ is_Some (cell b i j).
Proof.
  intros H. grid_cells b H.
  destruct i as [|[|[|[|i]]]], j as [|[|[|[|j]]]]; simpl; split;
    solve [ intros _; by eauto | intros _; lia
          | intros [? ?]; lia | intros [? ?]; done ].
Qed.

(** What one visited cell must satisfy for the scan to go on. *)
Definition cell_ok (b : Board) (i j : nat) : Prop :=
  ∃ v, cell b i j = Some v ∧ v ≠ 0
       ∧ ((i < 3)%nat → ∃ w, cell b (i + 1) j = Some w ∧ v ≠ w)
       ∧ ((j < 3)%nat → ∃ w, cell b i (j + 1) = Some w ∧ v ≠ w).

(** The test of one neighbour, under its index guard [g]. *)
Lemma neighbour_test (g : Prop) `{Decision g} (v : Z) (c : option Z)
    (k : option bool) :
  (t ← (if decide g then w ← c; Some (bool_decide (v = w)) else Some false);
   if t : bool then Some false else k) = Some true
  ↔ (g → ∃ w, c = Some w ∧ v ≠ w) ∧ k = Some true.
Proof.
  destruct (decide g) as [Hg|Hg]; simpl.
  - destruct c as [w|]; simpl.
    + destruct (bool_decide_reflect (v = w)); simpl; naive_solver.
    + naive_solver.
  - naive_solver.
Qed.

Lemma gameOver_step_true b i j rest :
  gameOver_step b i j rest = Some true ↔ cell_ok b i j ∧ rest = Some true.
Proof.
  unfold gameOver_step, cell_ok, GRID_SIZE.
  change (4 - 1)%nat with 3%nat.
  destruct (cell b i j) as [v|]; simpl; [|naive_solver].
  destruct (decide (v = 0)) as [Hv|Hv]; [naive_solver|].
  rewrite neighbour_test, neighbour_test.
  split.
  - intros (Hbelow & Hbeside & ->). split; [|done].
    exists v. by repeat split.
  - intros [(v' & [= <-] & _ & Hbelow & Hbeside) ->]. by repeat split.
Qed.

Lemma gameOver_scan_true b ps :
  foldr (λ '(i, j) rest, gameOver_step b i j rest) (Some true) ps = Some true
  ↔ Forall (λ '(i, j), cell_ok b i j) ps.
Proof.
  induction ps as [|[i j] ps IH]; simpl; [done|].
  rewrite gameOver_step_true, IH, Forall_cons. done.
Qed.

Lemma scan_order_spec i j : (i, j) ∈ scan_order ↔ (i < 4 ∧ j < 4)%nat.
Proof.
  unfold scan_order, GRID_SIZE. rewrite list_elem_of_bind. split.
  - intros (x & (y & Hy & Hj%elem_of_seq)%list_elem_of_bind & Hx%elem_of_seq).
    apply list_elem_of_singleton in Hy. simplify_eq. lia.
  - intros [Hi Hj]. exists i. split; [|apply elem_of_seq; lia].
    apply list_elem_of_bind. exists j.
    split; [by apply list_elem_of_singleton | apply elem_of_seq; lia].
Qed.

Lemma neighbour_total (g : Prop) `{Decision g} (v : Z) (c : option Z)
    (k : option bool) :
  (g → is_Some c) → is_Some k →
  is_Some
    (t ← (if decide g then w ← c; Some (bool_decide (v = w)) else Some false);
     if t : bool then Some false else k).
Proof.
  intros Hc Hk. destruct (decide g) as [Hg|Hg]; simpl; [|done].
  destruct (Hc Hg) as [w ->]. simpl.
  by destruct (bool_decide (v = w)).
Qed.

(** On a grid the terminal test reads no cell out of range. *)
Lemma isGameOver_total b : is_grid b → is_Some (isGameOver b).
Proof.
  intros Hb. unfold isGameOver.
  assert (Hin : Forall (λ '(i, j), (i < 4 ∧ j < 4)%nat) scan_order).
  { apply Forall_forall. intros [i j]. apply scan_order_spec. }
  induction Hin as [|[i j] ps [Hi Hj] _ IH]; simpl; [done|].
  unfold gameOver_step, GRID_SIZE. change (4 - 1)%nat with 3%nat.
  destruct (proj1 (cell_grid b i j Hb) (conj Hi Hj)) as [v ->]. simpl.
  destruct (decide (v = 0)); [done|].
  apply neighbour_total; [intros; apply cell_grid; [done|lia]|].
  apply neighbour_total; [intros; apply cell_grid; [done|lia]|].
  exact IH.
Qed.

Lemma terminal_cells b :
  is_grid b → terminal b ↔ Forall (λ '(i, j), cell_ok b i j) scan_order.
Proof.
  intros Hb. rewrite Forall_forall. split.
  - intros Hterm [i j] [Hi Hj]%scan_order_spec.
    destruct (proj1 (cell_grid b i j Hb) (conj Hi Hj)) as [v Hv].
    destruct (Hterm i j v Hv) as (Hv0 & Hbelow & Hbeside).
    exists v. repeat split; [done..| |].
    + intros Hlt. destruct (proj1 (cell_grid b (i + 1) j Hb)) as [w Hw];
        [lia|]. exists w. split; [done|]. by apply Hbelow.
    + intros Hlt. destruct (proj1 (cell_grid b i (j + 1) Hb)) as [w Hw];
        [lia|]. exists w. split; [done|]. by apply Hbeside.
  - intros Hall i j v Hv.
    assert (Hij : (i < 4 ∧ j < 4)%nat) by (apply (cell_grid b); eauto).
    destruct (Hall (i, j) (proj2 (scan_order_spec i j) Hij))
      as (v' & Hv' & Hv0 & Hbelow & Hbeside).
    assert (v' = v) as -> by congruence.
    repeat split; [done| |].
    + intros w Hw.
      assert ((i + 1 < 4 ∧ j < 4)%nat) by (apply (cell_grid b); eauto).
      destruct Hbelow as (w' & Hw' & Hne); [lia|]. congruence.
    + intros w Hw.
      assert ((i < 4 ∧ j + 1 < 4)%nat) by (apply (cell_grid b); eauto).
      destruct Hbeside as (w' & Hw' & Hne); [lia|]. congruence.
Qed.

(** ** Facts about the spawn *)

Lemma for_range_0 {S} (body : nat → S → option S) s :
  for_range 0 body s = Some s.
Proof. done. Qed.

Lemma for_range_S {S} n (body : nat → S → option S) s :
  for_range (Datatypes.S n) body s = for_range n body s ≫= body n.
Proof. unfold for_range. by rewrite seq_S, foldl_app. Qed.

(** The coordinates of the zeros of row [i], from column [j] on. *)
Fixpoint zeros_from (i j : nat) (row : list Z) : list (nat * nat) :=
  match row with
  | [] => []
  | v :: row' =>
      (if decide (v = 0) then [(i, j)] else []) ++ zeros_from i (S j) row'
  end.

Definition free_cells (b : Board) : list (nat * nat) :=
  mjoin (imap (λ i row, zeros_from i 0 row) b).

Lemma zeros_from_length i j row :
  (length (zeros_from i j row) + nonzeros row = length row)%nat.
Proof.
  revert j. induction row as [|v row IH]; intros j; [done|].
  simpl. rewrite nonzeros_cons, length_app. specialize (IH (S j)).
  unfold nz. repeat case_decide; simpl; lia.
Qed.

Lemma zeros_from_lookup i j row x y :
  (x, y) ∈ zeros_from i j row →
  x = i ∧ (j ≤ y)%nat ∧ row !! (y - j)%nat = Some 0.
Proof.
  revert j. induction row as [|v row IH]; intros j; simpl.
  - by intros ?%elem_of_nil.
  - rewrite elem_of_app. intros [Hhere|Hlater].
    + case_decide; [|by apply elem_of_nil in Hhere].
      apply list_elem_of_singleton in Hhere. simplify_eq.
      by rewrite Nat.sub_diag.
    + destruct (IH _ Hlater) as (-> & Hle & Hy).
      split; [done|]. split; [lia|].
      by replace (y - j)%nat with (S (y - S j)) by lia.
Qed.

(** The inner loop of the scan, on a row of four cells. *)
Lemma empty_scan_row b i row acc :
  b !! i = Some row → length row = 4%nat →
  for_range GRID_SIZE (λ j acc,
      v ← cell b i j;
      Some (if decide (v = 0) then acc ++ [(i, j)] else acc)) acc
  = Some (acc ++ zeros_from i 0 row).
Proof.
  intros Hrow Hlen.
  destruct row as [|a0 [|a1 [|a2 [|a3 [|? ?]]]]]; try discriminate.
  unfold for_range, cell. simpl. rewrite Hrow. simpl.
  repeat case_decide; simpl; by rewrite <- ?app_assoc, ?app_nil_r.
Qed.

Lemma emptyCells_grid b : is_grid b → emptyCells b = Some (free_cells b).
Proof.
  intros (r0 & r1 & r2 & r3 & -> & H0 & H1 & H2 & H3)%is_grid_rows.
  unfold emptyCells.
  rewrite (for_range_S 3), (for_range_S 2), (for_range_S 1), (for_range_S 0).
  rewrite for_range_0.
  change (Some ?x ≫= ?f) with (f x). cbv beta.
  rewrite (empty_scan_row _ 0 r0) by done.
  change (Some ?x ≫= ?f) with (f x). cbv beta.
  rewrite (empty_scan_row _ 1 r1) by done.
  change (Some ?x ≫= ?f) with (f x). cbv beta.
  rewrite (empty_scan_row _ 2 r2) by done.
  change (Some ?x ≫= ?f) with (f x). cbv beta.
  rewrite (empty_scan_row _ 3 r3) by done.
  unfold free_cells. simpl. by rewrite app_nil_r, <- !app_assoc.
Qed.

Lemma free_cells_length b :
  is_grid b → (length (free_cells b) + nonzero_cells b = 16)%nat.
Proof.
  intros (r0 & r1 & r2 & r3 & -> & H0 & H1 & H2 & H3)%is_grid_rows.
  unfold free_cells, nonzero_cells. simpl.
  rewrite !length_app. simpl.
  pose proof (zeros_from_length 0 0 r0).
  pose proof (zeros_from_length 1 0 r1).
  pose proof (zeros_from_length 2 0 r2).
  pose proof (zeros_from_length 3 0 r3).
  lia.
Qed.

Lemma free_cells_zero b x y :
  (x, y) ∈ free_cells b → ∃ row, b !! x = Some row ∧ row !! y = Some 0.
Proof.
  unfold free_cells. intros Hin.
  apply list_elem_of_join in Hin as (cells & Hin & Hcells).
  apply list_elem_of_lookup in Hcells as [i Hi].
  rewrite list_lookup_imap in Hi.
  apply fmap_Some in Hi as (row & Hrow & ->).
  apply zeros_from_lookup in Hin as (-> & _ & Hy).
  rewrite Nat.sub_0_r in Hy. eauto.
Qed.

(** [Math.floor(u * n)] is an index below [n]. *)
Lemma floor_scaled_range u n :
  unit_draw u → (0 < n)%nat → 0 ≤ floor_scaled u n < Z.of_nat n.
Proof.
  intros [Hlo Hhi] Hn. unfold floor_scaled.
  set (q := inject_Z (Z.of_nat n)).
  assert (Hq : (0 < q)%Q).
  { unfold q. change 0%Q with (inject_Z 0). rewrite <- Zlt_Qlt. lia. }
  split.
  - change 0 with (Qfloor 0). apply Qfloor_resp_le.
    apply Qmult_le_0_compat; [done|]. by apply Qlt_le_weak.
  - rewrite Zlt_Qlt. fold q.
    eapply Qle_lt_trans; [apply Qfloor_le|].
    rewrite <- (Qmult_1_l q) at 2.
    by apply Qmult_lt_compat_r.
Qed.

Lemma tile_value_cases u : tile_value u = 2 ∨ tile_value u = 4.
Proof. unfold tile_value. destruct (Qlt_le_dec u (9 # 10)); auto. Qed.

(** A full board is returned as it is. *)
Lemma addRandomTile_full b u1 u2 :
  is_grid b → (∀ i j, cell b i j ≠ Some 0) →
  addRandomTile b u1 u2 = Some b.
Proof.
  intros Hb Hfull. unfold addRandomTile.
  rewrite emptyCells_grid by done. simpl.
  destruct (free_cells b) as [|[x y] cells] eqn:Hfree; [done|].
  exfalso.
  destruct (free_cells_zero b x y) as (row & Hrow & Hy).
  { rewrite Hfree. apply list_elem_of_here. }
  apply (Hfull x y). unfold cell. by rewrite Hrow.
Qed.

(** A board with a free cell gets one tile, in a free cell. *)
Lemma addRandomTile_spawn b u1 u2 :
  is_grid b → unit_draw u1 → (nonzero_cells b < 16)%nat →
  ∃ x y row,
    b !! x = Some row ∧ row !! y = Some 0
    ∧ addRandomTile b u1 u2 = Some (<[x := <[y := tile_value u2]> row]> b).
Proof.
  intros Hb Hu Hfree. unfold addRandomTile.
  rewrite emptyCells_grid by done. simpl.
  pose proof (free_cells_length b Hb) as Hlen.
  rewrite decide_True by lia.
  destruct (floor_scaled_range u1 (length (free_cells b)) Hu) as [Hlo Hhi];
    [lia|].
  unfold at_index. rewrite decide_True by done.
  destruct (lookup_lt_is_Some_2 (free_cells b)
              (Z.to_nat (floor_scaled u1 (length (free_cells b)))))
    as [[x y] Hxy]; [lia|].
  rewrite Hxy. simpl.
  destruct (free_cells_zero b x y) as (row & Hrow & Hy).
  { apply list_elem_of_lookup. eauto. }
  exists x, y, row. repeat split; [done..|].
  unfold setCell. rewrite Hrow. simpl.
  rewrite decide_True; [done|]. by eapply lookup_lt_Some.
Qed.

Lemma nonzeros_insert row y v :
  row !! y = Some 0 → v ≠ 0 →
  nonzeros (<[y := v]> row) = S (nonzeros row).
Proof.
  revert y. induction row as [|a row IH]; intros [|y] Hy Hv; simplify_eq/=.
  - rewrite !nonzeros_cons. unfold nz.
    rewrite decide_True, decide_False by (done || by intros H; apply H).
    done.
  - rewrite !nonzeros_cons, IH by done. lia.
Qed.

Lemma nonzero_cells_insert b x row row' :
  b !! x = Some row → nonzeros row' = S (nonzeros row) →
  nonzero_cells (<[x := row']> b) = S (nonzero_cells b).
Proof.
  unfold nonzero_cells.
  revert x. induction b as [|r b IH]; intros [|x] Hx Hrow;
    simpl; simpl in Hx; [done | done | simplify_eq; by rewrite Hrow |].
  rewrite <- Nat.add_succ_r. f_equal. exact (IH x Hx Hrow).
Qed.

Lemma is_grid_insert b x y row v :
  is_grid b → b !! x = Some row → is_grid (<[x := <[y := v]> row]> b).
Proof.
  unfold is_grid. intros Hb Hrow.
  rewrite list_fmap_insert, length_insert.
  rewrite list_insert_id; [done|].
  by rewrite list_lookup_fmap, Hrow.
Qed.

Lemma tiles_insert b x y row v :
  forallb (forallb tile_ok) b = true → b !! x = Some row →
  tile_ok v = true →
  forallb (forallb tile_ok) (<[x := <[y := v]> row]> b) = true.
Proof.
  rewrite !forallb_Forall_true. intros Hb Hrow Hv.
  apply Forall_insert; [done|].
  rewrite forallb_Forall_true. apply Forall_insert; [|done].
  apply forallb_Forall_true.
  exact (Forall_lookup_1 _ _ _ _ Hb Hrow).
Qed.

(** ** The slide of one line *)

(** C1.  For every line of N = 4 integers, [slideRowLeft] returns the
    line obtained by removing the zeros in order, merging each pair of
    consecutive equal values of the compacted line into one tile of double
    value while skipping past the pair, and padding with zeros on the right
    to length N, together with the sum of the merged values; the loop always
    leaves through its guard.  In particular [2,2,2,2] gives [4,4,0,0] with
    score delta 8. *)
Theorem slideRowLeft_compact_merge_pad (row : list Z)
    (Hlen : length row = GRID_SIZE) :
  slideRowLeft row
  = Some (padTo GRID_SIZE (mergePairs (compact row)),
          scoreDelta (compact row))
  ∧ length (padTo GRID_SIZE (mergePairs (compact row))) = GRID_SIZE
  ∧ slideRowLeft [2; 2; 2; 2] = Some ([4; 4; 0; 0], 8).
Proof.
  split; [apply slideRowLeft_spec|].
  split; [|reflexivity].
  apply (slide_line_length row). unfold GRID_SIZE in Hlen. lia.
Qed.

Lemma slideRowLeft_compact_merge_pad_witness :
  slideRowLeft [2; 2; 2; 2] = Some ([4; 4; 0; 0], 8).
Proof.
  exact (proj1 (slideRowLeft_compact_merge_pad [2; 2; 2; 2] eq_refl)).
Defined.

(** ** The move as a rotation-normalised slide *)

Lemma rotate90_turn b : is_grid b → rotate90 b = turn b.
Proof. intros H. grid_cells b H. reflexivity. Qed.

Lemma iter_rotate90 n b :
  is_grid b → Nat.iter n rotate90 b = Nat.iter n turn b.
Proof.
  intros Hb. induction n as [|n IH]; [done|].
  simpl. rewrite IH. apply rotate90_turn. by apply iter_turn_grid.
Qed.

Lemma lines_slid b : (slideAndMergeLine <$> b).*1 = slid b.
Proof. unfold slid. by rewrite <- list_fmap_compose. Qed.

Lemma gain_sum b :
  is_grid b → foldr Z.add 0 ((slideAndMergeLine <$> b).*2) = gain b.
Proof.
  intros (r0 & r1 & r2 & r3 & -> & _)%is_grid_rows.
  unfold gain. cbn [fmap list_fmap foldr foldl]. lia.
Qed.

Lemma turns_back_equal d b :
  is_grid b →
  Nat.iter (3 * rotations d) turn b
  = Nat.iter ((4 - normal_turns d) mod 4) turn b.
Proof. intros H. grid_cells b H. by destruct d. Qed.

(** C2.  On every grid and for every direction, the slide phase of [move]
    (k calls of [rotateBoard], the four rows slid in place by
    [slideRowLeft], then three calls of [rotateBoard] per initial turn)
    succeeds and returns the board and the score delta of the
    rotation-normalised composition of the specification: k clockwise
    quarter turns, the line operation on each row with the deltas summed,
    then (4 − k) mod 4 quarter turns, with k = 0 for left, 1 for up, 2 for
    right and 3 for down. *)
Theorem move_is_normalised_slide (b : Board) (d : direction)
    (Hb : is_grid b) :
  move_slide b d = Some (normalised_move b d).
Proof.
  rewrite move_slide_grid by done.
  unfold normalised_move, slide_board, slide_gain.
  assert (Hk : normal_turns d = rotations d) by by destruct d.
  cbv zeta. rewrite turn3_iter.
  pose proof (iter_turn_grid (rotations d) b Hb) as Hg.
  rewrite turns_back_equal by by apply slid_grid.
  rewrite !Hk, (iter_rotate90 (rotations d)) by done.
  rewrite lines_slid, gain_sum by done.
  by rewrite iter_rotate90 by by apply slid_grid.
Qed.

Lemma move_is_normalised_slide_witness :
  move_slide [[2;2;0;0];[0;4;0;4];[2;0;2;0];[8;8;8;8]] down
  = Some ([[4;2;2;4];[8;4;8;8];[0;8;0;0];[0;0;0;0]], 4).
Proof.
  rewrite (move_is_normalised_slide
             [[2;2;0;0];[0;4;0;4];[2;0;2;0];[8;8;8;8]] down eq_refl).
  vm_compute. reflexivity.
Defined.

(** ** A move that changes the board *)

Lemma boardChanged_true b t : boardChanged b t = true ↔ t ≠ b.
Proof. unfold boardChanged. rewrite bool_decide_eq_true. naive_solver. Qed.

(** The state a changing move commits. *)
Lemma move_changed s d u1 u2 :
  is_grid (board s) → gameOver s = false → unit_draw u1 →
  slide_board (board s) d ≠ board s →
  ∃ x y row over,
    slide_board (board s) d !! x = Some row ∧ row !! y = Some 0
    ∧ isGameOver (<[x := <[y := tile_value u2]> row]>
                    (slide_board (board s) d)) = Some over
    ∧ move s d u1 u2
      = Some {| board := <[x := <[y := tile_value u2]> row]>
                           (slide_board (board s) d);
                score := score s + slide_gain (board s) d;
                gameOver := over |}.
Proof.
  intros Hb Hplay Hu Hne.
  pose proof (slide_board_grid _ d Hb) as Ht.
  destruct (addRandomTile_spawn (slide_board (board s) d) u1 u2 Ht Hu)
    as (x & y & row & Hrow & Hy & Hadd);
    [by apply slide_board_changed|].
  destruct (isGameOver_total
              (<[x := <[y := tile_value u2]> row]> (slide_board (board s) d)))
    as [over Hover]; [by apply is_grid_insert|].
  exists x, y, row, over. repeat split; [done..|].
  unfold move. rewrite Hplay, move_slide_grid by done. simpl.
  rewrite (proj2 (boardChanged_true _ _) Hne).
  rewrite Hadd. simpl. rewrite Hover. simpl.
  by destruct over.
Qed.

(** C3.  When the game is running and the slide phase changes the grid,
    the move puts exactly one tile, of value 2 or 4, into a cell of the
    slid board that held 0, and the committed board has
    (non-zero cells before the move − merged pairs) + 1 non-zero cells. *)
Theorem move_spawns_one_tile (s : State) (d : direction) (u1 u2 : Q)
    (t : Board) (delta : Z)
    (Hgrid : is_grid (board s)) (Hplay : gameOver s = false)
    (Hdraw : unit_draw u1)
    (Hslide : move_slide (board s) d = Some (t, delta))
    (Hchanged : t ≠ board s) :
  ∃ s' x y row v,
    move s d u1 u2 = Some s'
    ∧ t !! x = Some row ∧ row !! y = Some 0
    ∧ (v = 2 ∨ v = 4)
    ∧ board s' = <[x := <[y := v]> row]> t
    ∧ Z.of_nat (nonzero_cells (board s'))
      = Z.of_nat (nonzero_cells (board s))
        - Z.of_nat (moves_merged (board s) d) + 1.
Proof.
  rewrite move_slide_grid in Hslide by done. simplify_eq.
  destruct (move_changed s d u1 u2 Hgrid Hplay Hdraw Hchanged)
    as (x & y & row & over & Hrow & Hy & Hover & Hmove).
  eexists _, x, y, row, (tile_value u2).
  split; [exact Hmove|]. simpl.
  repeat split; [done | done | apply tile_value_cases | ].
  rewrite (nonzero_cells_insert _ _ row) by
    (done || (apply nonzeros_insert; [done|];
              destruct (tile_value_cases u2) as [-> | ->]; done)).
  pose proof (slide_board_nonzeros (board s) d Hgrid). lia.
Qed.

Lemma move_spawns_one_tile_witness :
  ∃ s' x y row v,
    move (mkState [[2;2;0;0];[0;0;0;0];[0;0;0;0];[0;0;0;0]] 0 false)
         left (1 # 2) (1 # 2) = Some s'
    ∧ [[4;0;0;0];[0;0;0;0];[0;0;0;0];[0;0;0;0]] !! x = Some row
    ∧ row !! y = Some 0
    ∧ (v = 2 ∨ v = 4)
    ∧ board s' = <[x := <[y := v]> row]>
                   [[4;0;0;0];[0;0;0;0];[0;0;0;0];[0;0;0;0]]
    ∧ Z.of_nat (nonzero_cells (board s'))
      = Z.of_nat (nonzero_cells [[2;2;0;0];[0;0;0;0];[0;0;0;0];[0;0;0;0]])
        - Z.of_nat (moves_merged
                      [[2;2;0;0];[0;0;0;0];[0;0;0;0];[0;0;0;0]] left) + 1.
Proof.
  apply (move_spawns_one_tile
           (mkState [[2;2;0;0];[0;0;0;0];[0;0;0;0];[0;0;0;0]] 0 false)
           left (1 # 2) (1 # 2)
           [[4;0;0;0];[0;0;0;0];[0;0;0;0];[0;0;0;0]] 4).
  - reflexivity.
  - reflexivity.
  - split; vm_compute; congruence.
  - vm_compute. reflexivity.
  - simpl. discriminate.
Defined.

(** ** A move that changes nothing *)

(** C4.  When the slid and turned-back board equals the board of the
    state, [move] returns the state as it is, without failure: no spawn, no
    score change, no terminal test, no change of the game-over flag.  In
    particular the row [2,0,0,0] slides to itself with score delta 0. *)
Theorem move_unchanged_is_noop (s : State) (d : direction) (u1 u2 : Q)
    (delta : Z)
    (Hsame : move_slide (board s) d = Some (board s, delta)) :
  move s d u1 u2 = Some s
  ∧ slideRowLeft [2; 0; 0; 0] = Some ([2; 0; 0; 0], 0).
Proof.
  split; [|reflexivity].
  unfold move. destruct (gameOver s); [done|].
  rewrite Hsame. simpl. unfold boardChanged.
  by rewrite bool_decide_eq_false_2 by (intros H; by apply H).
Qed.

Lemma move_unchanged_is_noop_witness :
  move (mkState [[2;0;0;0];[0;0;0;0];[4;0;0;0];[0;0;0;0]] 12 false)
       left (1 # 3) (19 # 20)
  = Some (mkState [[2;0;0;0];[0;0;0;0];[4;0;0;0];[0;0;0;0]] 12 false).
Proof.
  refine (proj1 (move_unchanged_is_noop
           (mkState [[2;0;0;0];[0;0;0;0];[4;0;0;0];[0;0;0;0]] 12 false)
           left (1 # 3) (19 # 20) 0 _)).
  vm_compute. reflexivity.
Defined.

(** ** The terminal test *)

(** C5.  On every grid [isGameOver] returns a boolean, and it returns
    true exactly when every cell is non-zero and no two horizontally or
    vertically adjacent cells hold equal values; a grid with a cell equal
    to 0 is never terminal. *)
Theorem isGameOver_iff_terminal (b : Board) (Hb : is_grid b) :
  (∃ r, isGameOver b = Some r ∧ (r = true ↔ terminal b))
  ∧ (∀ x y, cell b x y = Some 0 → isGameOver b = Some false).
Proof.
  assert (Hiff : isGameOver b = Some true ↔ terminal b).
  { unfold isGameOver. rewrite gameOver_scan_true. symmetry.
    by apply terminal_cells. }
  destruct (isGameOver_total b Hb) as [r Hr].
  split.
  - exists r. split; [done|]. rewrite <- Hiff, Hr. naive_solver.
  - intros x y Hzero. destruct r; [|done].
    apply Hiff in Hr. by destruct (Hr x y 0 Hzero) as [? _].
Qed.

Lemma isGameOver_iff_terminal_witness :
  isGameOver [[2;4;2;4];[4;2;4;2];[2;4;0;4];[4;2;4;2]] = Some false.
Proof.
  apply (proj2 (isGameOver_iff_terminal
                  [[2;4;2;4];[4;2;4;2];[2;4;0;4];[4;2;4;2]] eq_refl)
           2%nat 2%nat).
  reflexivity.
Defined.

(** ** The input handlers *)

(** A number below zero is not above zero. *)
Lemma gt_zero_asym (x : float) :
  gt 0%float x = true → gt x 0%float = false.
Proof.
  unfold gt. rewrite !ltb_spec. unfold SFltb.
  change (Prim2SF 0%float) with (S754_zero false).
  destruct (Prim2SF x) as [s|s| |s m e]; simpl; try destruct s; done.
Qed.

Lemma Math_max_cases a b :
  Math_max a b = nan ∨ Math_max a b = a ∨ Math_max a b = b.
Proof. unfold Math_max. repeat case_match; auto. Qed.

(** A swipe that passes the distance test and is not wider than tall
    dispatches the vertical label of its displacement. *)
Lemma vertical_swipe {T} (mv : direction → T → option T) sx sy ex ey st :
  gt (Math_max (abs (ex - sx)%float) (abs (ey - sy)%float)) 30%float
  = true →
  gt (abs (ex - sx)%float) (abs (ey - sy)%float) = false →
  (handleTouchEnd mv (Some (sx, sy)) [(ex, ey)] st).1
  = mv (if gt (ey - sy)%float 0%float then down else up) st.
Proof.
  intros Hlong Htall. unfold handleTouchEnd. cbn [fst]. cbv zeta.
  by rewrite Hlong, Htall.
Qed.

(** C6.  The keyboard handler calls [move] with [down] for ArrowUp, [up]
    for ArrowDown, [left] for ArrowLeft and [right] for ArrowRight, and
    makes no call for any other key.  The touch handler, for a swipe that
    passes its distance test and is not wider than tall, calls [move] with
    [up] when the vertical displacement it computes is negative (the end
    lies above the start) and with [down] when it is positive.  So a key
    and a swipe of the same vertical direction pass opposite arguments.
    The displacements and the tests are those of binary64 arithmetic. *)
Theorem handlers_dispatch {T : Type} (mv : direction → T → option T)
    (st : T) :
  handleKeyDown mv "ArrowUp" st = mv down st
  ∧ handleKeyDown mv "ArrowDown" st = mv up st
  ∧ handleKeyDown mv "ArrowLeft" st = mv left st
  ∧ handleKeyDown mv "ArrowRight" st = mv right st
  ∧ (∀ key, key ≠ "ArrowUp"%string → key ≠ "ArrowDown"%string →
            key ≠ "ArrowLeft"%string → key ≠ "ArrowRight"%string →
            handleKeyDown mv key st = Some st)
  ∧ (∀ sx sy ex ey,
       gt (Math_max (abs (ex - sx)%float) (abs (ey - sy)%float)) 30%float
       = true →
       gt (abs (ex - sx)%float) (abs (ey - sy)%float) = false →
       gt 0%float (ey - sy)%float = true →
       (handleTouchEnd mv (Some (sx, sy)) [(ex, ey)] st).1 = mv up st)
  ∧ (∀ sx sy ex ey,
       gt (Math_max (abs (ex - sx)%float) (abs (ey - sy)%float)) 30%float
       = true →
       gt (abs (ex - sx)%float) (abs (ey - sy)%float) = false →
       gt (ey - sy)%float 0%float = true →
       (handleTouchEnd mv (Some (sx, sy)) [(ex, ey)] st).1 = mv down st).
Proof.
  repeat split; try reflexivity.
  - intros key H1 H2 H3 H4. unfold handleKeyDown.
    by rewrite !(proj2 (String.eqb_neq _ _)) by done.
  - intros sx sy ex ey Hlong Htall Hup.
    rewrite vertical_swipe by done.
    by rewrite (gt_zero_asym _ Hup).
  - intros sx sy ex ey Hlong Htall Hdown.
    rewrite vertical_swipe by done.
    by rewrite Hdown.
Qed.

Lemma handlers_dispatch_witness :
  (handleTouchEnd (λ d (_ : direction), Some d)
     (Some (100, 200)%float) [(105, 120)%float] left).1 = Some up
  ∧ handleKeyDown (λ d (_ : direction), Some d) "ArrowUp" left = Some down.
Proof.
  pose proof (handlers_dispatch (λ d (_ : direction), Some d) left)
    as (Hkey & _ & _ & _ & _ & Hswipe & _).
  split; [|exact Hkey].
  apply Hswipe; vm_compute; reflexivity.
Defined.

(** ** Well-formed boards *)

Lemma tile_value_ok u : tile_ok (tile_value u) = true.
Proof. by destruct (tile_value_cases u) as [-> | ->]. Qed.

Lemma free_cells_nil b u1 u2 :
  is_grid b → free_cells b = [] → addRandomTile b u1 u2 = Some b.
Proof.
  intros Hb Hfree. unfold addRandomTile.
  rewrite emptyCells_grid by done. simpl. by rewrite Hfree.
Qed.

Lemma addRandomTile_well_formed b u1 u2 :
  well_formed b → unit_draw u1 →
  ∃ b', addRandomTile b u1 u2 = Some b' ∧ well_formed b'.
Proof.
  intros [Hb Ht] Hu.
  destruct (decide (nonzero_cells b < 16)%nat) as [Hfree|Hfull].
  - destruct (addRandomTile_spawn b u1 u2 Hb Hu Hfree)
      as (x & y & row & Hrow & Hy & ->).
    eexists. split; [done|]. split.
    + by apply is_grid_insert.
    + apply tiles_insert; [done..|apply tile_value_ok].
  - exists b. split; [|done]. apply free_cells_nil; [done|].
    pose proof (free_cells_length b Hb).
    apply length_zero_iff_nil. lia.
Qed.

Lemma move_well_formed s d u1 u2 :
  well_formed (board s) → unit_draw u1 →
  ∃ s', move s d u1 u2 = Some s'
        ∧ well_formed (board s')
        ∧ score s' = score s + move_delta s d
        ∧ score s ≤ score s'.
Proof.
  intros [Hb Ht] Hu. unfold move_delta.
  destruct (gameOver s) eqn:Hover.
  { exists s. unfold move. rewrite Hover. repeat split; [done..|lia|lia]. }
  rewrite move_slide_grid by done.
  pose proof (slide_gain_nonneg _ d Hb Ht) as Hgain.
  destruct (decide (slide_board (board s) d = board s)) as [Hsame|Hne].
  - exists s. unfold move, boardChanged.
    rewrite Hover, move_slide_grid by done. simpl.
    rewrite bool_decide_eq_false_2 by (intros H; by apply H).
    repeat split; [done..|lia|lia].
  - destruct (move_changed s d u1 u2 Hb Hover Hu Hne)
      as (x & y & row & over & Hrow & Hy & _ & ->).
    rewrite (proj2 (boardChanged_true _ _) Hne).
    eexists. split; [done|]. simpl. repeat split; [| |lia].
    + apply is_grid_insert; [by apply slide_board_grid | done].
    + apply tiles_insert; [by apply slide_board_tiles|done|].
      apply tile_value_ok.
Qed.

(** ** The score of a session *)

Lemma play_app s pre post :
  play s (pre ++ post) = play s pre ≫= λ s1, play s1 post.
Proof.
  revert s. induction pre as [|[[d u1] u2] pre IH]; intros s; [done|].
  simpl. destruct (move s d u1 u2) as [s'|]; simpl; [apply IH|done].
Qed.

Lemma play_scores s moves :
  well_formed (board s) → fair moves →
  ∃ s', play s moves = Some s'
        ∧ well_formed (board s')
        ∧ score s' = score s + session_delta s moves
        ∧ score s ≤ score s'.
Proof.
  intros Hwf Hfair. revert s Hwf.
  induction Hfair as [|[[d u1] u2] moves Hu _ IH]; intros s Hwf.
  - exists s. simpl. split; [done|]. split; [done|]. split; lia.
  - destruct (move_well_formed s d u1 u2 Hwf Hu)
      as (s1 & Hmove & Hwf1 & Hscore1 & Hle1).
    destruct (IH s1 Hwf1) as (s2 & Hplay & Hwf2 & Hscore2 & Hle2).
    exists s2. simpl. rewrite Hmove. simpl.
    split; [done|]. split; [done|]. split; lia.
Qed.

(** C7.  From a state with a well-formed board, a session of moves with
    unit draws runs to a state whose score is the starting score plus the
    sum of the score deltas of its state-changing moves (a move that
    changes nothing counts zero), and the score after any prefix of the
    session is at most the score after the whole session and at least the
    starting score. *)
Theorem score_is_sum_of_deltas (s : State) (moves : list (direction * Q * Q))
    (Hwf : well_formed (board s)) (Hfair : fair moves) :
  ∃ s', play s moves = Some s'
        ∧ score s' = score s + session_delta s moves
        ∧ (∀ pre post, moves = pre ++ post →
             ∃ s1, play s pre = Some s1 ∧ score s ≤ score s1 ≤ score s').
Proof.
  destruct (play_scores s moves Hwf Hfair) as (s' & Hplay & _ & Hsum & _).
  exists s'. repeat split; [done..|].
  intros pre post ->.
  apply Forall_app in Hfair as [Hpre Hpost].
  destruct (play_scores s pre Hwf Hpre) as (s1 & Hplay1 & Hwf1 & _ & Hle1).
  destruct (play_scores s1 post Hwf1 Hpost) as (s2 & Hplay2 & _ & _ & Hle2).
  rewrite play_app, Hplay1 in Hplay. simpl in Hplay.
  assert (s2 = s') as -> by congruence.
  exists s1. split; [done|lia].
Qed.

Lemma score_is_sum_of_deltas_witness :
  ∃ s', play (mkState [[2;2;0;0];[0;0;0;0];[0;0;0;0];[0;0;0;0]] 0 false)
             [(left, 1 # 2, 1 # 2); (left, 1 # 4, 1 # 2);
              (right, 3 # 4, 19 # 20)] = Some s'
        ∧ score s' = 4.
Proof.
  destruct (score_is_sum_of_deltas
              (mkState [[2;2;0;0];[0;0;0;0];[0;0;0;0];[0;0;0;0]] 0 false)
              [(left, 1 # 2, 1 # 2); (left, 1 # 4, 1 # 2);
               (right, 3 # 4, 19 # 20)])
    as (s' & Hplay & Hscore & _).
  - split; reflexivity.
  - repeat constructor; vm_compute; congruence.
  - exists s'. split; [exact Hplay|]. rewrite Hscore. reflexivity.
Defined.

(** ** Well-formedness is preserved *)

Lemma createEmptyBoard_well_formed : well_formed createEmptyBoard.
Proof. by split. Qed.

(** C8.  From a well-formed board (four rows of four cells, each 0 or a
    power of two that is at least 2) the quarter turn, the spawn and the
    move return a well-formed board, the slide of each of its rows returns
    four cells that are 0 or such powers of two, and game initialisation
    returns a well-formed board. *)
Theorem well_formed_preserved (b : Board) (Hwf : well_formed b) :
  (∃ b', rotateBoard b = Some b' ∧ well_formed b')
  ∧ (∀ row, row ∈ b →
       ∃ newRow mergedScore,
         slideRowLeft row = Some (newRow, mergedScore)
         ∧ length newRow = GRID_SIZE
         ∧ forallb tile_ok newRow = true)
  ∧ (∀ u1 u2, unit_draw u1 →
       ∃ b', addRandomTile b u1 u2 = Some b' ∧ well_formed b')
  ∧ (∀ sc over d u1 u2, unit_draw u1 →
       ∃ s', move (mkState b sc over) d u1 u2 = Some s'
             ∧ well_formed (board s'))
  ∧ (∀ u1 u2 u3 u4, unit_draw u1 → unit_draw u3 →
       ∃ s, initGame u1 u2 u3 u4 = Some s ∧ well_formed (board s)).
Proof.
  pose proof Hwf as [Hb Ht].
  split; [|split; [|split; [|split]]].
  - exists (turn b). split; [by apply rotateBoard_grid|].
    split; [by apply turn_grid | by apply turn_tiles].
  - intros row Hrow.
    assert (Hrow_ok : length row = 4%nat ∧ forallb tile_ok row = true).
    { apply list_elem_of_lookup in Hrow as [i Hi]. split.
      - assert (Hlen : (length <$> b) !! i = Some (length row))
          by by rewrite list_lookup_fmap, Hi.
        rewrite Hb in Hlen.
        by destruct i as [|[|[|[|i]]]]; simplify_eq/=.
      - apply forallb_Forall_true in Ht.
        exact (Forall_lookup_1 _ _ _ _ Ht Hi). }
    destruct Hrow_ok as [Hlen Htiles].
    exists (slideAndMergeLine row).1, (slideAndMergeLine row).2.
    split; [rewrite slideRowLeft_spec; by destruct (slideAndMergeLine row)|].
    split; [apply slide_line_length; lia | by apply slide_line_tiles].
  - intros u1 u2 Hu. by apply addRandomTile_well_formed.
  - intros sc over d u1 u2 Hu.
    destruct (move_well_formed (mkState b sc over) d u1 u2 Hwf Hu)
      as (s' & Hmove & Hwf' & _).
    by exists s'.
  - intros u1 u2 u3 u4 Hu1 Hu3. unfold initGame.
    destruct (addRandomTile_well_formed createEmptyBoard u1 u2
                createEmptyBoard_well_formed Hu1) as (b1 & Hb1 & Hwf1).
    destruct (addRandomTile_well_formed b1 u3 u4 Hwf1 Hu3)
      as (b2 & Hb2 & Hwf2).
    rewrite Hb1. simpl. rewrite Hb2. simpl. eauto.
Qed.

Lemma well_formed_preserved_witness :
  ∃ s', move (mkState [[2;2;4;0];[0;8;0;8];[16;0;0;0];[2;4;2;4]] 0 false)
             up (1 # 3) (19 # 20) = Some s'
        ∧ well_formed (board s').
Proof.
  refine (proj1 (proj2 (proj2 (proj2 (well_formed_preserved
            [[2;2;4;0];[0;8;0;8];[16;0;0;0];[2;4;2;4]] _))))
            0 false up (1 # 3) (19 # 20) _).
  - split; reflexivity.
  - split; vm_compute; congruence.
Defined.

(** ** Four quarter turns *)

(** C9.  On every grid, four successive applications of [rotateBoard]
    succeed and return the grid itself. *)
Theorem rotate_four_times (b : Board) (Hb : is_grid b) :
  (b1 ← rotateBoard b; b2 ← rotateBoard b1; b3 ← rotateBoard b2;
   rotateBoard b3) = Some b.
Proof.
  pose proof (turn_grid _ Hb) as H1.
  pose proof (turn_grid _ H1) as H2.
  pose proof (turn_grid _ H2) as H3.
  rewrite (rotateBoard_grid b Hb). cbn [mbind option_bind].
  rewrite (rotateBoard_grid _ H1). cbn [mbind option_bind].
  rewrite (rotateBoard_grid _ H2). cbn [mbind option_bind].
  rewrite (rotateBoard_grid _ H3).
  f_equal. by apply turn_four.
Qed.

Lemma rotate_four_times_witness :
  (b1 ← rotateBoard [[2;0;4;0];[0;8;0;0];[0;0;16;2];[4;0;0;32]];
   b2 ← rotateBoard b1; b3 ← rotateBoard b2; rotateBoard b3)
  = Some [[2;0;4;0];[0;8;0;0];[0;0;16;2];[4;0;0;32]].
Proof.
  apply (rotate_four_times [[2;0;4;0];[0;8;0;0];[0;0;16;2];[4;0;0;32]]).
  reflexivity.
Defined.

(** ** The spawn on a full board *)

(** C10.  On a grid without a cell equal to 0, [addRandomTile] returns
    the grid it was given, whatever the draws: no tile is placed and the
    call does not fail. *)
Theorem addRandomTile_full_board (b : Board) (u1 u2 : Q)
    (Hb : is_grid b) (Hfull : ∀ i j, cell b i j ≠ Some 0) :
  addRandomTile b u1 u2 = Some b.
Proof. by apply addRandomTile_full. Qed.

Lemma addRandomTile_full_board_witness :
  addRandomTile [[2;4;2;4];[4;2;4;2];[2;4;2;4];[4;2;4;2]] (1 # 2) (1 # 2)
  = Some [[2;4;2;4];[4;2;4;2];[2;4;2;4];[4;2;4;2]].
Proof.
  apply (addRandomTile_full_board
           [[2;4;2;4];[4;2;4;2];[2;4;2;4];[4;2;4;2]] (1 # 2) (1 # 2)).
  - reflexivity.
  - intros [|[|[|[|i]]]] [|[|[|[|j]]]]; vm_compute; congruence.
Defined.

(** * Further properties of the board engine *)

(** ** What a slide keeps *)

(** The sum of the values of a row, and of a board. *)
Definition row_sum (row : list Z) : Z := foldr Z.add 0 row.

Definition board_sum (b : Board) : Z := foldr (λ row acc, row_sum row + acc) 0 b.

(** No zero is followed by a non-zero cell. *)
Definition packed (row : list Z) : Prop :=
  ∀ i v, row !! i = Some 0 → row !! S i = Some v → v = 0.

Lemma row_sum_app r1 r2 : row_sum (r1 ++ r2) = row_sum r1 + row_sum r2.
Proof. unfold row_sum. induction r1 as [|v r1 IH]; simpl; lia. Qed.

Lemma row_sum_zeros n : row_sum (replicate n 0) = 0.
Proof. unfold row_sum. induction n as [|n IH]; simpl; lia. Qed.

Lemma row_sum_compact row : row_sum (compact row) = row_sum row.
Proof.
  unfold compact, row_sum. induction row as [|v row IH]; [done|].
  rewrite filter_cons. case_decide; simpl; lia.
Qed.

Lemma row_sum_mergePairs l : row_sum (mergePairs l) = row_sum l.
Proof.
  induction l as [| x | x rest IH | x y tl Hne IH] using merge_ind;
    [done..| |].
  - rewrite mergePairs_merge. unfold row_sum in *. simpl. lia.
  - rewrite mergePairs_keep by done. unfold row_sum in *. simpl in *. lia.
Qed.

Lemma padded_packed m k : Forall (λ v, v ≠ 0) m → packed (m ++ replicate k 0).
Proof.
  intros Hm i v Hi Hv.
  destruct (decide (i < length m)%nat) as [Hlt|Hge].
  - rewrite lookup_app_l in Hi by done.
    by destruct (Forall_lookup_1 _ _ _ _ Hm Hi).
  - rewrite lookup_app_r in Hv by lia.
    by apply lookup_replicate in Hv as [-> _].
Qed.

(** X1.  Whatever the row, [slideRowLeft] returns a row with the same sum
    of values in which no zero is followed by a non-zero value, and whose
    count of non-zero cells is the count of the input less the number of
    merged pairs. *)
Theorem slideRowLeft_conserves (row newRow : list Z) (mergedScore : Z)
    (Hslide : slideRowLeft row = Some (newRow, mergedScore)) :
  row_sum newRow = row_sum row
  ∧ packed newRow
  ∧ (nonzeros newRow + mergedPairs (compact row) = nonzeros row)%nat.
Proof.
  rewrite slideRowLeft_spec in Hslide.
  pose proof (slide_line_nonzeros row) as Hnz.
  unfold slideAndMergeLine in *. simpl in Hnz. simplify_eq.
  split; [|split; [|done]].
  - unfold padTo. rewrite row_sum_app, row_sum_zeros, row_sum_mergePairs.
    rewrite row_sum_compact. lia.
  - apply padded_packed, merged_nonzero.
Qed.

Lemma slideRowLeft_conserves_witness :
  row_sum [4; 4; 0; 0] = row_sum [2; 2; 0; 4]
  ∧ packed [4; 4; 0; 0]
  ∧ Nat.add (nonzeros [4; 4; 0; 0]) (mergedPairs (compact [2; 2; 0; 4]))
    = nonzeros [2; 2; 0; 4].
Proof.
  apply (slideRowLeft_conserves [2; 2; 0; 4] [4; 4; 0; 0] 4).
  reflexivity.
Defined.

(** ** Rows that a slide leaves alone *)

(** A row of four cells is left alone by the slide when it is packed and
    has no two equal neighbours among its non-zero cells. *)
Definition settled (a b c d : Z) : Prop :=
  (a = 0 → b = 0) ∧ (b = 0 → c = 0) ∧ (c = 0 → d = 0)
  ∧ (a ≠ 0 → a ≠ b) ∧ (b ≠ 0 → b ≠ c) ∧ (c ≠ 0 → c ≠ d).

Lemma filter_nonzero_cons v l :
  filter (λ v, v ≠ 0) (v :: l)
  = if decide (v = 0) then filter (λ v, v ≠ 0) l
    else v :: filter (λ v, v ≠ 0) l.
Proof. rewrite filter_cons. by repeat case_decide. Qed.

Lemma slide_four a b c d :
  slideAndMergeLine [a; b; c; d] = ([a; b; c; d], 0) ↔ settled a b c d.
Proof.
  unfold slideAndMergeLine, compact, padTo, settled, GRID_SIZE.
  rewrite !filter_nonzero_cons, filter_nil.
  destruct (decide (a = 0)) as [->|Ha], (decide (b = 0)) as [->|Hb],
    (decide (c = 0)) as [->|Hc], (decide (d = 0)) as [->|Hd];
    cbn [mergePairs scoreDelta];
    repeat case_decide; cbn [length Nat.sub replicate app];
    (split; [intros [=]; repeat split; intros; lia
            | intros (? & ? & ? & ? & ? & ?); try (exfalso; lia);
              f_equal; try lia; repeat (f_equal; try lia)]).
Qed.

Lemma slide_four_board a b c d :
  (slideAndMergeLine [a; b; c; d]).1 = [a; b; c; d] → settled a b c d.
Proof.
  intros Hfix. apply slide_four.
  pose proof (slide_line_nonzeros [a; b; c; d]) as Hnz.
  rewrite Hfix in Hnz.
  assert (Hm : mergedPairs (compact [a; b; c; d]) = 0%nat) by lia.
  clear Hnz. revert Hfix Hm.
  unfold slideAndMergeLine, compact, padTo, GRID_SIZE.
  rewrite !filter_nonzero_cons, filter_nil.
  destruct (decide (a = 0)) as [->|Ha], (decide (b = 0)) as [->|Hb],
    (decide (c = 0)) as [->|Hc], (decide (d = 0)) as [->|Hd];
    cbn [mergePairs scoreDelta mergedPairs fst];
    repeat case_decide; cbn [length Nat.sub replicate app];
    intros [=] ?; try done; f_equal; lia.
Qed.

(** X2.  A row of four cells comes back from [slideRowLeft] unchanged
    exactly when no zero is followed by a non-zero cell and no non-zero
    cell equals its right neighbour; the score delta is then 0. *)
Theorem slideRowLeft_fixed_row (a b c d : Z) :
  (∀ mergedScore,
     slideRowLeft [a; b; c; d] = Some ([a; b; c; d], mergedScore) →
     settled a b c d ∧ mergedScore = 0)
  ∧ (settled a b c d →
     slideRowLeft [a; b; c; d] = Some ([a; b; c; d], 0)).
Proof.
  split.
  - intros g Hslide. rewrite slideRowLeft_spec in Hslide.
    assert (Hset : settled a b c d).
    { apply slide_four_board.
      destruct (slideAndMergeLine [a; b; c; d]). by simplify_eq/=. }
    split; [done|].
    apply slide_four in Hset. rewrite Hset in Hslide. by simplify_eq.
  - intros Hset. rewrite slideRowLeft_spec. f_equal. by apply slide_four.
Qed.

Lemma slideRowLeft_fixed_row_witness :
  slideRowLeft [2; 4; 2; 0] = Some ([2; 4; 2; 0], 0).
Proof.
  apply (proj2 (slideRowLeft_fixed_row 2 4 2 0)).
  unfold settled. repeat split; intros; lia.
Defined.

(** ** Terminal boards and stuck boards *)

(** The facts [terminal] gives about the cell in row [i], column [j] of a
    board of named cells. *)
Ltac terminal_cell H i j :=
  let F1 := fresh in
  let F2 := fresh in
  pose proof (H i j _ eq_refl) as (? & F1 & F2);
  try pose proof (F1 _ eq_refl);
  try pose proof (F2 _ eq_refl);
  clear F1 F2.

Ltac terminal_facts H :=
  terminal_cell H 0%nat 0%nat; terminal_cell H 0%nat 1%nat;
  terminal_cell H 0%nat 2%nat; terminal_cell H 0%nat 3%nat;
  terminal_cell H 1%nat 0%nat; terminal_cell H 1%nat 1%nat;
  terminal_cell H 1%nat 2%nat; terminal_cell H 1%nat 3%nat;
  terminal_cell H 2%nat 0%nat; terminal_cell H 2%nat 1%nat;
  terminal_cell H 2%nat 2%nat; terminal_cell H 2%nat 3%nat;
  terminal_cell H 3%nat 0%nat; terminal_cell H 3%nat 1%nat;
  terminal_cell H 3%nat 2%nat; terminal_cell H 3%nat 3%nat.

Ltac eval_turns :=
  repeat match goal with
  | |- context [Nat.iter ?n turn ?x] =>
      let y := eval vm_compute in (Nat.iter n turn x) in
      change (Nat.iter n turn x) with y
  end.

Lemma terminal_settled b d :
  is_grid b → terminal b →
  slid (Nat.iter (rotations d) turn b) = Nat.iter (rotations d) turn b
  ∧ slide_gain b d = 0.
Proof.
  intros H Hterm. grid_cells b H. terminal_facts Hterm. clear Hterm.
  unfold slide_gain, slid, gain.
  destruct d; unfold rotations; eval_turns; cbn [fmap list_fmap foldl];
    rewrite !(proj2 (slide_four _ _ _ _))
      by (unfold settled; repeat split; intros; congruence);
    done.
Qed.

(** X3.  On a grid for which [isGameOver] answers true, the slide phase
    of a move returns the board itself with score delta 0 in each of the
    four directions: a terminal board cannot be changed by any move. *)
Theorem terminal_board_is_stuck (b : Board) (d : direction)
    (Hb : is_grid b) (Hover : isGameOver b = Some true) :
  move_slide b d = Some (b, 0).
Proof.
  assert (Hterm : terminal b).
  { apply terminal_cells; [done|]. by apply gameOver_scan_true. }
  destruct (terminal_settled b d Hb Hterm) as [Hfix Hgain].
  rewrite move_slide_grid by done.
  by rewrite slide_board_unchanged, Hgain.
Qed.

Lemma terminal_board_is_stuck_witness :
  move_slide [[2;4;2;4];[4;2;4;2];[2;4;2;4];[4;2;4;2]] up
  = Some ([[2;4;2;4];[4;2;4;2];[2;4;2;4];[4;2;4;2]], 0).
Proof.
  apply (terminal_board_is_stuck
           [[2;4;2;4];[4;2;4;2];[2;4;2;4];[4;2;4;2]] up).
  - reflexivity.
  - vm_compute. reflexivity.
Defined.

Lemma nz_le v : (nz v ≤ 1)%nat.
Proof. unfold nz. case_decide; lia. Qed.

Lemma nz_one v : nz v = 1%nat ↔ v ≠ 0.
Proof. unfold nz. case_decide; naive_solver. Qed.

(** A row settled both from the left and from the right is all zero or
    all non-zero, and in the second case has no two equal neighbours. *)
Lemma settled_both a b c d :
  settled a b c d → settled d c b a →
  nz a = nz b ∧ nz b = nz c ∧ nz c = nz d
  ∧ (nz a = 1%nat → a ≠ b ∧ b ≠ c ∧ c ≠ d).
Proof.
  unfold settled, nz. intros (L1 & L2 & L3 & N1 & N2 & N3) (R1 & R2 & R3 & _).
  repeat case_decide; repeat split; try done; try tauto; intros _.
Qed.

Lemma turns_undo d g :
  is_grid g →
  Nat.iter (rotations d) turn (Nat.iter (3 * rotations d) turn g) = g.
Proof. intros H. grid_cells g H. by destruct d. Qed.

Lemma slide_board_fixed b d :
  is_grid b → slide_board b d = b →
  slid (Nat.iter (rotations d) turn b) = Nat.iter (rotations d) turn b.
Proof.
  intros Hb Hfix. unfold slide_board in Hfix. rewrite turn3_iter in Hfix.
  rewrite <- Hfix at 2.
  by rewrite turns_undo by by apply slid_grid, iter_turn_grid.
Qed.

(** The rows of a board of named cells that the slide leaves alone. *)
Ltac settled_rows H :=
  unfold slid in H; cbn [fmap list_fmap] in H;
  injection H as
    ?%slide_four_board ?%slide_four_board ?%slide_four_board
    ?%slide_four_board.

Lemma stuck_terminal b :
  is_grid b → (0 < nonzero_cells b)%nat →
  (∀ d, slide_board b d = b) → terminal b.
Proof.
  intros H Hsome Hstuck.
  pose proof (slide_board_fixed b left H (Hstuck left)) as Hl.
  pose proof (slide_board_fixed b right H (Hstuck right)) as Hr.
  pose proof (slide_board_fixed b up H (Hstuck up)) as Hu.
  pose proof (slide_board_fixed b down H (Hstuck down)) as Hd.
  clear Hstuck. revert Hsome Hl Hr Hu Hd.
  grid_cells b H. unfold rotations. eval_turns.
  intros Hsome Hl Hr Hu Hd.
  settled_rows Hl. settled_rows Hr. settled_rows Hu. settled_rows Hd.
  repeat match goal with
  | L : settled ?a ?b ?c ?d, R : settled ?d ?c ?b ?a |- _ =>
      pose proof (settled_both a b c d L R) as (? & ? & ? & ?); clear L R
  end.
  revert Hsome. count_cells. intros Hsome.
  repeat match goal with
  | F : nz _ = 1%nat → _ |- _ => revert F
  end.
  match goal with
  | |- (nz ?a = 1%nat → _) → _ =>
      assert (Hone : nz a = 1%nat) by (pose proof (nz_le a); lia)
  end.
  clear Hsome.
  repeat match goal with
  | |- (nz ?a = 1%nat → _) → _ =>
      let F := fresh in
      intros F; destruct F as (? & ? & ?); [congruence|]
  end.
  intros [|[|[|[|i]]]] [|[|[|[|j]]]] v [= <-];
    (split; [apply nz_one; congruence|]);
    split; intros w [= <-]; congruence.
Qed.

Lemma terminal_isGameOver b :
  is_grid b → (isGameOver b = Some true ↔ terminal b).
Proof.
  intros Hb. unfold isGameOver. rewrite gameOver_scan_true.
  symmetry. by apply terminal_cells.
Qed.

(** X4.  On a grid that holds at least one tile and for which
    [isGameOver] answers false, the slide phase of a move changes the
    board in at least one of the four directions: the game never shows a
    board on which the player is stuck without declaring it over. *)
Theorem live_board_has_move (b : Board)
    (Hb : is_grid b) (Htile : (0 < nonzero_cells b)%nat)
    (Hlive : isGameOver b = Some false) :
  ∃ d t delta, move_slide b d = Some (t, delta) ∧ t ≠ b.
Proof.
  assert (Hmoved : ∀ d, slide_board b d ≠ b →
            ∃ d t delta, move_slide b d = Some (t, delta) ∧ t ≠ b).
  { intros d Hd. exists d, (slide_board b d), (slide_gain b d).
    split; [by apply move_slide_grid | done]. }
  destruct (decide (slide_board b left = b)) as [Hl|?]; [|eauto].
  destruct (decide (slide_board b right = b)) as [Hr|?]; [|eauto].
  destruct (decide (slide_board b up = b)) as [Hu|?]; [|eauto].
  destruct (decide (slide_board b down = b)) as [Hd|?]; [|eauto].
  assert (Hstuck : ∀ d, slide_board b d = b) by by intros [].
  apply (stuck_terminal b Hb Htile) in Hstuck.
  apply terminal_isGameOver in Hstuck; [congruence|done].
Qed.

Lemma live_board_has_move_witness :
  ∃ d t delta,
    move_slide [[2;4;2;4];[4;2;4;2];[2;4;2;4];[4;2;4;4]] d = Some (t, delta)
    ∧ t ≠ [[2;4;2;4];[4;2;4;2];[2;4;2;4];[4;2;4;4]].
Proof.
  apply (live_board_has_move [[2;4;2;4];[4;2;4;2];[2;4;2;4];[4;2;4;4]]).
  - reflexivity.
  - vm_compute. lia.
  - vm_compute. reflexivity.
Defined.

(** ** The game-over flag along a session *)

Lemma free_cell_not_terminal b :
  is_grid b → (nonzero_cells b < 16)%nat → ¬ terminal b.
Proof.
  intros Hb Hfree Hterm.
  pose proof (free_cells_length b Hb) as Hlen.
  destruct (free_cells b) as [|[x y] cells] eqn:Hcells;
    [simpl in Hlen; lia|].
  destruct (free_cells_zero b x y) as (row & Hrow & Hy).
  { rewrite Hcells. apply list_elem_of_here. }
  destruct (Hterm x y 0) as [Hnz _]; [|done].
  unfold cell. by rewrite Hrow.
Qed.

(** The flag is set exactly on terminal boards. *)
Definition flag_tracks (s : State) : Prop :=
  gameOver s = true ↔ terminal (board s).

Lemma move_flag s d u1 u2 :
  is_grid (board s) → unit_draw u1 → flag_tracks s →
  ∃ s', move s d u1 u2 = Some s'
        ∧ is_grid (board s') ∧ flag_tracks s'.
Proof.
  intros Hb Hu Hflag.
  destruct (gameOver s) eqn:Hover.
  { exists s. unfold move. by rewrite Hover. }
  destruct (decide (slide_board (board s) d = board s)) as [Hsame|Hne].
  - exists s. unfold move, boardChanged.
    rewrite Hover, move_slide_grid by done. simpl.
    by rewrite bool_decide_eq_false_2 by (intros H; by apply H).
  - destruct (move_changed s d u1 u2 Hb Hover Hu Hne)
      as (x & y & row & over & Hrow & Hy & Hcheck & ->).
    eexists. split; [done|]. simpl.
    assert (Hgrid : is_grid (<[x := <[y := tile_value u2]> row]>
                               (slide_board (board s) d)))
      by (apply is_grid_insert; [by apply slide_board_grid|done]).
    split; [done|]. unfold flag_tracks. simpl.
    rewrite <- (terminal_isGameOver _ Hgrid), Hcheck. naive_solver.
Qed.

Lemma play_flag s moves :
  is_grid (board s) → fair moves → flag_tracks s →
  ∃ s', play s moves = Some s'
        ∧ is_grid (board s') ∧ flag_tracks s'.
Proof.
  intros Hb Hfair. revert s Hb.
  induction Hfair as [|[[d u1] u2] moves Hu _ IH]; intros s Hb Hflag.
  - by exists s.
  - destruct (move_flag s d u1 u2 Hb Hu Hflag) as (s1 & Hmove & Hb1 & Hf1).
    destruct (IH s1 Hb1 Hf1) as (s2 & Hplay & Hb2 & Hf2).
    exists s2. simpl. rewrite Hmove. simpl. done.
Qed.

Lemma play_over s moves : gameOver s = true → play s moves = Some s.
Proof.
  intros Hover. induction moves as [|[[d u1] u2] moves IH]; [done|].
  simpl. unfold move. rewrite Hover. simpl. exact IH.
Qed.

Lemma initGame_two_tiles u1 u2 u3 u4 :
  unit_draw u1 → unit_draw u3 →
  ∃ s, initGame u1 u2 u3 u4 = Some s
       ∧ is_grid (board s)
       ∧ nonzero_cells (board s) = 2%nat
       ∧ Forall (Forall (λ v, v = 0 ∨ v = 2 ∨ v = 4)) (board s)
       ∧ score s = 0 ∧ gameOver s = false.
Proof.
  intros Hu1 Hu3. unfold initGame.
  assert (Hv : ∀ u, tile_value u ≠ 0)
    by (intros u; destruct (tile_value_cases u) as [-> | ->]; done).
  destruct (addRandomTile_spawn createEmptyBoard u1 u2)
    as (x & y & row & Hrow & Hy & Hadd); [done|done|vm_compute; lia|].
  rewrite Hadd. cbn [mbind option_bind].
  set (b1 := <[x := <[y := tile_value u2]> row]> createEmptyBoard).
  assert (Hb1 : is_grid b1) by by apply is_grid_insert.
  assert (Hn1 : nonzero_cells b1 = 1%nat).
  { unfold b1. rewrite (nonzero_cells_insert _ _ row); [done|done|].
    by apply nonzeros_insert. }
  assert (Ht1 : Forall (Forall (λ v, v = 0 ∨ v = 2 ∨ v = 4)) b1).
  { apply Forall_insert; [by repeat constructor|].
    apply Forall_insert;
      [|destruct (tile_value_cases u2) as [-> | ->]; auto].
    apply (Forall_lookup_1 _ createEmptyBoard x); [|done].
    by repeat constructor. }
  destruct (addRandomTile_spawn b1 u3 u4)
    as (x' & y' & row' & Hrow' & Hy' & Hadd'); [done|done|lia|].
  rewrite Hadd'. cbn [mbind option_bind].
  eexists. split; [done|]. simpl.
  split; [by apply is_grid_insert|].
  split.
  { rewrite (nonzero_cells_insert _ _ row'); [lia|done|].
    by apply nonzeros_insert. }
  split; [|done].
  apply Forall_insert; [done|].
  apply Forall_insert;
    [|destruct (tile_value_cases u4) as [-> | ->]; auto].
  by apply (Forall_lookup_1 _ b1 x').
Qed.

(** X5.  [initGame] with unit draws returns a grid holding exactly two
    non-zero cells, every cell being 0, 2 or 4, with score 0 and the
    game-over flag cleared. *)
Theorem initGame_seeds_two_tiles (u1 u2 u3 u4 : Q)
    (Hu1 : unit_draw u1) (Hu3 : unit_draw u3) :
  ∃ s, initGame u1 u2 u3 u4 = Some s
       ∧ is_grid (board s)
       ∧ nonzero_cells (board s) = 2%nat
       ∧ Forall (Forall (λ v, v = 0 ∨ v = 2 ∨ v = 4)) (board s)
       ∧ score s = 0 ∧ gameOver s = false.
Proof. by apply initGame_two_tiles. Qed.

Lemma initGame_seeds_two_tiles_witness :
  ∃ s, initGame (1 # 2) (1 # 2) (1 # 4) (19 # 20) = Some s
       ∧ is_grid (board s)
       ∧ nonzero_cells (board s) = 2%nat
       ∧ Forall (Forall (λ v, v = 0 ∨ v = 2 ∨ v = 4)) (board s)
       ∧ score s = 0 ∧ gameOver s = false.
Proof.
  apply (initGame_seeds_two_tiles (1 # 2) (1 # 2) (1 # 4) (19 # 20));
    split; vm_compute; congruence.
Defined.

(** X6.  Along every session started by [initGame] with unit draws, the
    game-over flag is set exactly when the board is terminal, and once it
    is set every further move returns the state unchanged. *)
Theorem gameOver_flag_tracks_terminal (u1 u2 u3 u4 : Q)
    (moves : list (direction * Q * Q))
    (Hu1 : unit_draw u1) (Hu3 : unit_draw u3) (Hfair : fair moves) :
  ∃ s0 s, initGame u1 u2 u3 u4 = Some s0
          ∧ play s0 moves = Some s
          ∧ (gameOver s = true ↔ terminal (board s))
          ∧ (gameOver s = true → ∀ more, play s more = Some s).
Proof.
  destruct (initGame_two_tiles u1 u2 u3 u4 Hu1 Hu3)
    as (s0 & Hinit & Hb0 & Hn0 & _ & _ & Hover0).
  assert (Hflag0 : flag_tracks s0).
  { unfold flag_tracks. rewrite Hover0. split; [done|].
    intros Hterm. destruct (free_cell_not_terminal (board s0)); [done|lia|done]. }
  destruct (play_flag s0 moves Hb0 Hfair Hflag0) as (s & Hplay & _ & Hflag).
  exists s0, s.
  split; [done|]. split; [done|]. split; [exact Hflag|].
  intros Hover more. by apply play_over.
Qed.

Lemma gameOver_flag_tracks_terminal_witness :
  ∃ s0 s, initGame (1 # 2) (1 # 2) (1 # 4) (19 # 20) = Some s0
          ∧ play s0 [(left, 1 # 2, 1 # 2); (up, 1 # 3, 1 # 2)] = Some s
          ∧ (gameOver s = true ↔ terminal (board s))
          ∧ (gameOver s = true → ∀ more, play s more = Some s).
Proof.
  apply (gameOver_flag_tracks_terminal (1 # 2) (1 # 2) (1 # 4) (19 # 20)
           [(left, 1 # 2, 1 # 2); (up, 1 # 3, 1 # 2)]).
  - split; vm_compute; congruence.
  - split; vm_compute; congruence.
  - repeat constructor; vm_compute; congruence.
Defined.

(** ** The sum of the tiles *)

Lemma turn_board_sum b : is_grid b → board_sum (turn b) = board_sum b.
Proof.
  intros H. grid_cells b H. eval_turn.
  unfold board_sum, row_sum. simpl. lia.
Qed.

Lemma iter_turn_board_sum n b :
  is_grid b → board_sum (Nat.iter n turn b) = board_sum b.
Proof.
  intros Hb. induction n as [|n IH]; [done|].
  simpl. by rewrite turn_board_sum by by apply iter_turn_grid.
Qed.

Lemma slide_line_sum row : row_sum (slideAndMergeLine row).1 = row_sum row.
Proof.
  unfold slideAndMergeLine, padTo. cbn [fst].
  rewrite row_sum_app, row_sum_zeros, row_sum_mergePairs, row_sum_compact.
  lia.
Qed.

Lemma slid_board_sum b : board_sum (slid b) = board_sum b.
Proof.
  unfold slid, board_sum. induction b as [|row b IH]; [done|].
  rewrite fmap_cons. cbn [foldr]. by rewrite slide_line_sum, IH.
Qed.

Lemma slide_board_sum b d :
  is_grid b → board_sum (slide_board b d) = board_sum b.
Proof.
  intros Hb. unfold slide_board. rewrite turn3_iter.
  rewrite iter_turn_board_sum by by apply slid_grid, iter_turn_grid.
  rewrite slid_board_sum. by apply iter_turn_board_sum.
Qed.

Lemma row_sum_insert row y v :
  row !! y = Some 0 → row_sum (<[y := v]> row) = row_sum row + v.
Proof.
  unfold row_sum.
  revert y. induction row as [|a row IH]; intros [|y] Hy; simplify_eq/=;
    [lia|].
  rewrite (IH y) by done. lia.
Qed.

Lemma board_sum_insert b x row row' v :
  b !! x = Some row → row_sum row' = row_sum row + v →
  board_sum (<[x := row']> b) = board_sum b + v.
Proof.
  unfold board_sum.
  revert x. induction b as [|r b IH]; intros [|x] Hx Hrow; simplify_eq/=;
    [lia|].
  rewrite (IH x) by done. lia.
Qed.

(** X7.  A move that changes the board leaves the sum of all tile values
    larger by exactly the value of the spawned tile, 2 or 4: sliding and
    merging never create or lose value. *)
Theorem move_adds_spawn_to_sum (s : State) (d : direction) (u1 u2 : Q)
    (t : Board) (delta : Z)
    (Hgrid : is_grid (board s)) (Hplay : gameOver s = false)
    (Hdraw : unit_draw u1)
    (Hslide : move_slide (board s) d = Some (t, delta))
    (Hchanged : t ≠ board s) :
  board_sum t = board_sum (board s)
  ∧ ∃ s', move s d u1 u2 = Some s'
          ∧ board_sum (board s') = board_sum (board s) + tile_value u2
          ∧ (tile_value u2 = 2 ∨ tile_value u2 = 4).
Proof.
  rewrite move_slide_grid in Hslide by done. simplify_eq.
  split; [by apply slide_board_sum|].
  destruct (move_changed s d u1 u2 Hgrid Hplay Hdraw Hchanged)
    as (x & y & row & over & Hrow & Hy & _ & ->).
  eexists. split; [done|]. simpl. split; [|apply tile_value_cases].
  rewrite (board_sum_insert _ _ row _ (tile_value u2));
    [|done|by apply row_sum_insert].
  by rewrite slide_board_sum.
Qed.

Lemma move_adds_spawn_to_sum_witness :
  board_sum [[4;4;0;0];[0;0;0;0];[8;0;0;0];[0;0;0;0]]
  = board_sum [[2;2;4;0];[0;0;0;0];[0;0;8;0];[0;0;0;0]]
  ∧ ∃ s', move (mkState [[2;2;4;0];[0;0;0;0];[0;0;8;0];[0;0;0;0]] 0 false)
               left (1 # 2) (19 # 20) = Some s'
          ∧ board_sum (board s')
            = board_sum [[2;2;4;0];[0;0;0;0];[0;0;8;0];[0;0;0;0]]
              + tile_value (19 # 20)
          ∧ (tile_value (19 # 20) = 2 ∨ tile_value (19 # 20) = 4).
Proof.
  apply (move_adds_spawn_to_sum
           (mkState [[2;2;4;0];[0;0;0;0];[0;0;8;0];[0;0;0;0]] 0 false)
           left (1 # 2) (19 # 20)
           [[4;4;0;0];[0;0;0;0];[8;0;0;0];[0;0;0;0]] 4).
  - reflexivity.
  - reflexivity.
  - split; vm_compute; congruence.
  - vm_compute. reflexivity.
  - simpl. discriminate.
Defined.

(** ** Where the tiles go *)

Lemma packed_four a b c d :
  packed [a; b; c; d] → (a = 0 → b = 0) ∧ (b = 0 → c = 0) ∧ (c = 0 → d = 0).
Proof.
  intros Hp. repeat split; intros ->.
  - by apply (Hp 0%nat).
  - by apply (Hp 1%nat).
  - by apply (Hp 2%nat).
Qed.

Lemma slid_packed b : Forall packed (slid b).
Proof.
  unfold slid. apply Forall_fmap, Forall_true. intros row.
  unfold slideAndMergeLine, padTo. simpl.
  apply padded_packed, merged_nonzero.
Qed.

(** X8.  On a grid, the board returned by the slide phase is packed in
    the direction of the turn count: for [left] no zero has a non-zero
    cell to its right and for [right] none to its left, while for the
    label [up] no zero has a non-zero cell above it (the tiles lie against
    the last row) and for [down] none below it (the tiles lie against
    row 0). *)
Theorem move_slide_packs (b t : Board) (d : direction) (delta : Z)
    (Hb : is_grid b) (Hslide : move_slide b d = Some (t, delta)) :
  ∀ i j w,
    match d with
    | left => cell t i j = Some 0 → cell t i (j + 1) = Some w → w = 0
    | right => cell t i (j + 1) = Some 0 → cell t i j = Some w → w = 0
    | up => cell t (i + 1) j = Some 0 → cell t i j = Some w → w = 0
    | down => cell t i j = Some 0 → cell t (i + 1) j = Some w → w = 0
    end.
Proof.
  rewrite move_slide_grid in Hslide by done. simplify_eq.
  unfold slide_board. rewrite turn3_iter.
  pose proof (slid_grid _ (iter_turn_grid (rotations d) b Hb)) as Hg.
  pose proof (slid_packed (Nat.iter (rotations d) turn b)) as Hp.
  revert Hg Hp. generalize (slid (Nat.iter (rotations d) turn b)) as g.
  intros g Hg Hp. grid_cells g Hg.
  repeat match goal with
  | H : Forall packed (_ :: _) |- _ =>
      apply Forall_cons_1 in H as [?%packed_four H]
  end.
  destruct_and!.
  destruct d; unfold rotations; eval_turns;
    intros [|[|[|[|i]]]] [|[|[|[|j]]]] w; intros;
    repeat match goal with
    | H : cell _ _ _ = _ |- _ => vm_compute in H
    end;
    simplify_eq; auto.
Qed.

Lemma move_slide_packs_witness :
  cell [[0;0;0;0];[0;0;0;0];[0;0;0;0];[2;4;0;0]] 2 0 = Some 0
  ∧ cell [[0;0;0;0];[0;0;0;0];[0;0;0;0];[2;4;0;0]] 1 0 = Some 0
  ∧ (0 : Z) = 0.
Proof.
  split; [reflexivity|]. split; [reflexivity|].
  apply (move_slide_packs [[2;0;0;0];[0;4;0;0];[0;0;0;0];[0;0;0;0]]
           [[0;0;0;0];[0;0;0;0];[0;0;0;0];[2;4;0;0]] up 0
           eq_refl eq_refl 1%nat 0%nat 0);
    reflexivity.
Defined.

(** ** The touch handlers *)

(** [handleTouchStart]: a start with exactly one touch point records it;
    any other start leaves the recorded position as it was. *)
Definition handleTouchStart (touches : list (float * float))
    (touchStart : option (float * float)) : option (float * float) :=
  match touches with
  | [(x, y)] => Some (x, y)
  | _ => touchStart
  end.

(** X9.  [handleTouchEnd] makes no call of [move] when no start was
    recorded, when the event does not carry exactly one changed touch, or
    when neither displacement, as computed, exceeds 30 in absolute value;
    a swipe that passes the distance test and is wider than tall calls
    [move] with [right] when its horizontal displacement is positive and
    with [left] when it is negative; every touch end clears the recorded
    start, so that an end which follows it after a start that is not a
    single touch makes no call either.  The displacements and the tests
    are those of binary64 arithmetic. *)
Theorem touch_end_dispatch {T : Type} (mv : direction → T → option T)
    (st : T) :
  (∀ ends, handleTouchEnd mv None ends st = (Some st, None))
  ∧ (∀ start ends, length ends ≠ 1%nat →
       handleTouchEnd mv start ends st = (Some st, None))
  ∧ (∀ sx sy ex ey,
       gt (abs (ex - sx)%float) 30%float = false →
       gt (abs (ey - sy)%float) 30%float = false →
       handleTouchEnd mv (Some (sx, sy)) [(ex, ey)] st = (Some st, None))
  ∧ (∀ sx sy ex ey,
       gt (Math_max (abs (ex - sx)%float) (abs (ey - sy)%float)) 30%float
       = true →
       gt (abs (ex - sx)%float) (abs (ey - sy)%float) = true →
       (gt (ex - sx)%float 0%float = true →
        handleTouchEnd mv (Some (sx, sy)) [(ex, ey)] st
        = (mv right st, None))
       ∧ (gt 0%float (ex - sx)%float = true →
          handleTouchEnd mv (Some (sx, sy)) [(ex, ey)] st
          = (mv left st, None)))
  ∧ (∀ start ends, (handleTouchEnd mv start ends st).2 = None)
  ∧ (∀ start ends touches ends', length touches ≠ 1%nat →
       handleTouchEnd mv
         (handleTouchStart touches (handleTouchEnd mv start ends st).2)
         ends' st
       = (Some st, None)).
Proof.
  split; [done|]. split; [|split; [|split; [|split; [done|]]]].
  4: { intros start ends [|[x y] [|? ?]] ends' Hlen; simpl in Hlen; done. }
  - intros [[sx sy]|] [|[ex ey] [|? ?]] Hlen; simpl in Hlen; done.
  - intros sx sy ex ey Hx Hy. unfold handleTouchEnd. cbv zeta.
    destruct (Math_max_cases (abs (ex - sx)%float) (abs (ey - sy)%float))
      as [-> | [-> | ->]]; [done | by rewrite Hx | by rewrite Hy].
  - intros sx sy ex ey Hlong Hwide. unfold handleTouchEnd. cbv zeta.
    rewrite Hlong, Hwide. split.
    + by intros ->.
    + intros Hneg. by rewrite (gt_zero_asym _ Hneg).
Qed.

Lemma touch_end_dispatch_witness :
  handleTouchEnd (λ d (_ : direction), Some d)
    (Some (100, 200)%float) [(40, 210)%float] up
  = (Some left, None).
Proof.
  pose proof (touch_end_dispatch (λ d (_ : direction), Some d) up)
    as (_ & _ & _ & Hswipe & _ & _).
  apply (Hswipe 100%float 200%float 40%float 210%float);
    vm_compute; reflexivity.
Defined.

(** Two gestures at rounding boundaries.  From (0, 30.1) to (0, 0.1)
    the computed vertical displacement is exactly -30, which does not
    exceed 30, and no call is made; from (10.5, 300) to (207.8, 102.7) the
    two computed displacements have the same absolute value, so the swipe
    counts as vertical and calls [move] with [up]. *)
Example touch_end_at_threshold :
  handleTouchEnd (λ d (_ : direction), Some d)
    (Some (0, 0x1.e19999999999ap+4)%float)
    [(0, 0x1.999999999999ap-4)%float] left
  = (Some left, None).
Proof. vm_compute. reflexivity. Qed.

Example touch_end_at_diagonal :
  handleTouchEnd (λ d (_ : direction), Some d)
    (Some (10.5, 300)%float)
    [(0x1.9f9999999999ap+7, 0x1.9accccccccccdp+6)%float] left
  = (Some up, None).
Proof. vm_compute. reflexivity. Qed.

(** ** The rendering of a tile *)

(** The colour table of the [Tile] component, keyed by tile value. *)
Definition TILE_COLORS : gmap Z string :=
  list_to_map
    [(0, "bg-gray-700"); (2, "bg-gray-200 text-gray-800");
     (4, "bg-gray-300 text-gray-800"); (8, "bg-yellow-500 text-white");
     (16, "bg-yellow-600 text-white"); (32, "bg-orange-500 text-white");
     (64, "bg-orange-600 text-white"); (128, "bg-red-500 text-white");
     (256, "bg-red-600 text-white"); (512, "bg-indigo-500 text-white");
     (1024, "bg-indigo-600 text-white"); (2048, "bg-purple-600 text-white")]%string.

Definition getTileFontSize (value : Z) : string :=
  if decide (10000 ≤ value) then "text-xl"
  else if decide (1000 ≤ value) then "text-2xl"
  else if decide (100 ≤ value) then "text-3xl"
  else "text-4xl".

(** [TILE_COLORS[value] || 'bg-black text-white']: every entry of the
    table is a non-empty string, so the fallback is taken exactly when the
    key is missing. *)
Definition colorClass (value : Z) : string :=
  default "bg-black text-white"%string (TILE_COLORS !! value).

(** [value > 0 ? 'scale-100' : 'scale-0'] *)
Definition scale (value : Z) : string :=
  if decide (0 < value) then "scale-100" else "scale-0".

Lemma tile_ok_pow v :
  tile_ok v = true → v ≠ 0 → ∃ k : Z, 1 ≤ k ∧ v = 2 ^ k.
Proof. intros [->|?]%tile_ok_spec; done. Qed.

Lemma pow2_cases k :
  1 ≤ k →
  (k = 1 ∨ k = 2 ∨ k = 3 ∨ k = 4 ∨ k = 5 ∨ k = 6 ∨ k = 7 ∨ k = 8 ∨ k = 9
   ∨ k = 10 ∨ k = 11 ∨ k = 12 ∨ k = 13) ∨ 16384 ≤ 2 ^ k.
Proof.
  intros Hk. destruct (decide (k ≤ 13)) as [Hle|Hgt]; [left; lia|right].
  change 16384 with (2 ^ 14). apply Z.pow_le_mono_r; lia.
Qed.

(** Settle the rendering of one literal tile value. *)
Ltac render_value :=
  repeat split;
  let H := fresh in
  intros H;
  first [ lia | reflexivity | (vm_compute in H; discriminate) ].

(** X10.  For a tile value that is 0 or a power of two at least 2: the
    tile is drawn with the fall-back colour exactly when its value exceeds
    2048; its font class is text-4xl up to 64, text-3xl from 128 to 512,
    text-2xl from 1024 to 8192 and text-xl from 16384 on; and it is scaled
    to zero exactly when it is the empty cell. *)
Theorem tile_rendering (v : Z) (Hv : tile_ok v = true) :
  (colorClass v = "bg-black text-white"%string ↔ 2048 < v)
  ∧ (getTileFontSize v = "text-4xl"%string ↔ v ≤ 64)
  ∧ (getTileFontSize v = "text-3xl"%string ↔ 128 ≤ v ≤ 512)
  ∧ (getTileFontSize v = "text-2xl"%string ↔ 1024 ≤ v ≤ 8192)
  ∧ (getTileFontSize v = "text-xl"%string ↔ 16384 ≤ v)
  ∧ (scale v = "scale-0"%string ↔ v = 0).
Proof.
  destruct (decide (v = 0)) as [->|Hnz]; [by render_value|].
  destruct (tile_ok_pow v Hv Hnz) as (k & Hk & ->).
  destruct (pow2_cases k Hk) as [Hsmall|Hbig].
  - repeat destruct Hsmall as [->|Hsmall]; try subst k;
      match goal with
      | |- context [2 ^ ?k] =>
          let v := eval vm_compute in (2 ^ k) in change (2 ^ k) with v
      end;
      by render_value.
  - assert (Hcolor : colorClass (2 ^ k) = "bg-black text-white"%string).
    { unfold colorClass, TILE_COLORS.
      rewrite (not_elem_of_list_to_map_1 _ (2 ^ k)); [done|].
      cbn [fmap list_fmap fst].
      rewrite !not_elem_of_cons. repeat split; try lia.
      apply not_elem_of_nil. }
    unfold getTileFontSize, scale.
    rewrite Hcolor. repeat case_decide; try lia.
    repeat split; intros; (lia || congruence).
Qed.

Lemma tile_rendering_witness :
  colorClass 4096 = "bg-black text-white"%string
  ∧ getTileFontSize 4096 = "text-2xl"%string.
Proof.
  pose proof (tile_rendering 4096 eq_refl) as (Hc & _ & _ & Hf & _).
  split; [apply Hc; lia | apply Hf; lia].
Defined.

(** ** Score and merges *)

Lemma scoreDelta_merges l :
  Forall (λ v, 2 ≤ v) l → 4 * Z.of_nat (mergedPairs l) ≤ scoreDelta l.
Proof.
  induction l as [| x | x rest IH | x y tl Hne IH] using merge_ind;
    [done..| |].
  - rewrite mergedPairs_merge, scoreDelta_merge. intros H.
    apply Forall_cons_1 in H as [Hx H]. apply Forall_cons_1 in H as [_ H].
    specialize (IH H). lia.
  - rewrite mergedPairs_keep, scoreDelta_keep by done. intros H.
    apply Forall_cons_1 in H as [_ H]. auto.
Qed.

Lemma scoreDelta_no_merge l : mergedPairs l = 0%nat → scoreDelta l = 0.
Proof.
  induction l as [| x | x rest IH | x y tl Hne IH] using merge_ind;
    [done..| |].
  - by rewrite mergedPairs_merge.
  - by rewrite mergedPairs_keep, scoreDelta_keep by done.
Qed.

Lemma compact_tiles row :
  forallb tile_ok row = true → Forall (λ v, 2 ≤ v) (compact row).
Proof.
  rewrite forallb_Forall_true, !Forall_forall. intros Hrow v Hv.
  apply list_elem_of_filter in Hv as [Hnz Hv].
  apply Hrow, tile_ok_spec in Hv as [?|(k & Hk & ->)]; [done|].
  change 2 with (2 ^ 1) at 1. apply Z.pow_le_mono_r; lia.
Qed.

Lemma gain_from b total :
  foldl (λ total row, total + (slideAndMergeLine row).2) total b
  = total + gain b.
Proof.
  unfold gain. revert total.
  induction b as [|row b IH]; intros total; simpl; [lia|].
  rewrite (IH (total + _)), (IH (0 + _)). lia.
Qed.

Lemma gain_merges b :
  forallb (forallb tile_ok) b = true →
  4 * Z.of_nat (merged_in b) ≤ gain b
  ∧ (merged_in b = 0%nat → gain b = 0).
Proof.
  unfold merged_in. induction b as [|row b IH]; [done|].
  cbn [forallb]. rewrite andb_true_iff. intros [Hrow Hb].
  destruct (IH Hb) as [IH1 IH2].
  unfold gain. rewrite fmap_cons. cbn [foldl sum_list_with id].
  rewrite gain_from.
  pose proof (scoreDelta_merges _ (compact_tiles row Hrow)) as Hlow.
  pose proof (scoreDelta_no_merge (compact row)) as Hzero.
  change (slideAndMergeLine row).2 with (scoreDelta (compact row)).
  split; [lia|]. intros Hnone.
  rewrite Hzero, IH2 by lia. done.
Qed.

(** X11.  On a well-formed board the score delta of the slide phase is
    at least four times the number of pairs it merges and is 0 when it
    merges none: the score moves exactly when tiles merge. *)
Theorem score_delta_counts_merges (b t : Board) (d : direction) (delta : Z)
    (Hwf : well_formed b) (Hslide : move_slide b d = Some (t, delta)) :
  4 * Z.of_nat (moves_merged b d) ≤ delta
  ∧ (delta = 0 ↔ moves_merged b d = 0%nat).
Proof.
  destruct Hwf as [Hb Ht].
  rewrite move_slide_grid in Hslide by done. simplify_eq.
  unfold slide_gain, moves_merged.
  destruct (gain_merges (Nat.iter (rotations d) turn b)) as [Hlow Hzero];
    [by apply iter_turn_tiles|].
  split; [done|]. split; [lia|done].
Qed.

Lemma score_delta_counts_merges_witness :
  4 * Z.of_nat (moves_merged [[2;2;4;4];[0;0;0;0];[8;0;8;0];[0;0;0;0]] left)
  ≤ 28.
Proof.
  apply (score_delta_counts_merges
           [[2;2;4;4];[0;0;0;0];[8;0;8;0];[0;0;0;0]]
           [[4;8;0;0];[0;0;0;0];[16;0;0;0];[0;0;0;0]] left 28).
  - split; reflexivity.
  - vm_compute. reflexivity.
Defined.

(** ** Worked examples *)

Example slide_2222 : slideRowLeft [2; 2; 2; 2] = Some ([4; 4; 0; 0], 8).
Proof. reflexivity. Qed.

Example rot_ex :
  rotateBoard [[1;2;3;4];[5;6;7;8];[9;10;11;12];[13;14;15;16]]
  = Some [[13;9;5;1];[14;10;6;2];[15;11;7;3];[16;12;8;4]].
Proof. reflexivity. Qed.

Example move_ex :
  move (mkState [[2;2;0;0];[0;0;0;0];[0;0;0;0];[0;0;0;0]] 0 false) left (1#2) (1#2)
  = Some (mkState [[4;0;0;0];[0;0;0;0];[2;0;0;0];[0;0;0;0]] 4 false).
Proof. vm_compute. reflexivity. Qed.

Example move_up_ex :
  move_slide [[2;0;0;0];[0;0;0;0];[0;0;0;0];[0;0;0;0]] up
  = Some ([[0;0;0;0];[0;0;0;0];[0;0;0;0];[2;0;0;0]], 0).
Proof. vm_compute. reflexivity. Qed.

Example over_ex :
  isGameOver [[2;4;2;4];[4;2;4;2];[2;4;2;4];[4;2;4;2]] = Some true.
Proof. vm_compute. reflexivity. Qed.
